(** * Vault-CRM analysis scripts: prioritised fix reports

    A shallow embedding of two scripts of the repository,

    - [kimi-dev-system-debug.py]   (class [SystemDebugAnalyzer], [main]),
    - [kimi-dev-phase2-analyzer.py] (class [Phase2Analyzer]),

    and the properties of their scan / prioritise / report pipeline.

    Conventions of the embedding.

    - A Python [str] is a [string] (a sequence of bytes; a file's text is
      its UTF-8 encoding).  [str.lower], [str.title] and the regular
      expression class [\s] act on the ASCII range only, so the model
      covers source trees whose text is ASCII; other bytes are left
      untouched.
    - An issue is a Python [dict] with string keys and string values: a
      [gmap string string].  Subscripting a missing key raises [KeyError].
    - Exceptions are values of [exn]; a computation that may raise returns
      a [result].
    - The operating system is an explicit argument: a [FileSystem] gives
      the answers of [os.path.exists], [open(...).read()], [os.walk],
      [Path.stat] and of opening a file for writing; the wall clock is an
      argument of the functions that read it.
    - Methods of [SystemDebugAnalyzer] thread the object ([self]) through
      every call, so that what persists between two calls is visible.
    - Console output is not part of any returned value and is recorded
      only for [main]. *)

From Stdlib Require Import ZArith List String Ascii Bool Lia DecimalString Sorted.
From stdpp Require Import base gmap strings list.

Local Open Scope string_scope.
Local Open Scope list_scope.

(** ** Python strings *)

Module PyStr.

Definition nl : string := String (ascii_of_nat 10) "".
(** The double quote character *)
Definition dq : string := String (ascii_of_nat 34) "".

(** [sub in s] *)
Fixpoint contains (sub s : string) : bool :=
  String.prefix sub s ||
  match s with
  | "" => false
  | String _ s' => contains sub s'
  end.

(** [s.endswith(suffix)] *)
Fixpoint endswith (s suffix : string) : bool :=
  String.eqb s suffix ||
  match s with
  | "" => false
  | String _ s' => endswith s' suffix
  end.

Definition is_upper (c : ascii) : bool :=
  (65 <=? nat_of_ascii c)%nat && (nat_of_ascii c <=? 90)%nat.
Definition is_lower (c : ascii) : bool :=
  (97 <=? nat_of_ascii c)%nat && (nat_of_ascii c <=? 122)%nat.
Definition to_lower (c : ascii) : ascii :=
  if is_upper c then ascii_of_nat (nat_of_ascii c + 32) else c.
Definition to_upper (c : ascii) : ascii :=
  if is_lower c then ascii_of_nat (nat_of_ascii c - 32) else c.

(** [s.lower()] *)
Fixpoint lower (s : string) : string :=
  match s with
  | "" => ""
  | String c s' => String (to_lower c) (lower s')
  end.

(** [s.replace(old, new)] for one-character [old] and [new] *)
Fixpoint replace_char (old new : ascii) (s : string) : string :=
  match s with
  | "" => ""
  | String c s' =>
      String (if Ascii.eqb c old then new else c) (replace_char old new s')
  end.

(** [s.title()]: a cased character is upper-cased when the previous
    character is not cased, lower-cased when it is. *)
Fixpoint title_go (prev_cased : bool) (s : string) : string :=
  match s with
  | "" => ""
  | String c s' =>
      if is_upper c || is_lower c
      then String (if prev_cased then to_lower c else to_upper c)
                  (title_go true s')
      else String c (title_go false s')
  end.
Definition title : string -> string := title_go false.

(** [s.count(sub)]: occurrences found left to right, not overlapping.
    [skip] is the number of characters still covered by the last
    occurrence. *)
Fixpoint count_go (sub : string) (skip : nat) (s : string) : Z :=
  match s with
  | "" => 0
  | String _ s' =>
      match skip with
      | S k => count_go sub k s'
      | O =>
          if String.prefix sub s
          then (1 + count_go sub (String.length sub - 1) s')%Z
          else count_go sub 0 s'
      end
  end.
Definition count (s sub : string) : Z :=
  match sub with
  | "" => Z.of_nat (String.length s) + 1
  | _ => count_go sub 0 s
  end.

(** [s[len(p):]] when [s] starts with [p] *)
Fixpoint strip_prefix (p s : string) : option string :=
  match p with
  | "" => Some s
  | String a p' =>
      match s with
      | "" => None
      | String b s' => if Ascii.eqb a b then strip_prefix p' s' else None
      end
  end.

(** The class [\s] of [re] for a [str] pattern, on the code points below
    256 that a character of a text stands for here: tab to carriage
    return, the four separators, the space, NEL and the no-break
    space.  Texts with code points from 256 on are outside the model. *)
Definition is_space (c : ascii) : bool :=
  let n := nat_of_ascii c in
  ((9 <=? n)%nat && (n <=? 13)%nat) || ((28 <=? n)%nat && (n <=? 32)%nat)
  || (n =? 133)%nat || (n =? 160)%nat.

(** [s * n] *)
Fixpoint repeat (s : string) (n : nat) : string :=
  match n with O => "" | S n' => s +:+ repeat s n' end.

(** [sep.join(l)] *)
Definition join (sep : string) (l : list string) : string :=
  String.concat sep l.

(** [str(n)] for a non-negative [int] *)
Definition str_of_nat (n : nat) : string :=
  NilZero.string_of_uint (Nat.to_uint n).

(** A number printed in at least [w] digits, as [%02d] and the like do *)
Fixpoint zeros (k : nat) : string :=
  match k with O => "" | S k' => String "0" (zeros k') end.
Definition pad (w n : nat) : string :=
  let s := str_of_nat n in zeros (w - String.length s) +:+ s.

End PyStr.

(** ** Exceptions *)

(** [KeyError] carries the missing key, [ValueError] the value that was
    not accepted, [OSError] the path of the file, [UnicodeDecodeError]
    the path of the file whose bytes are not text in the encoding of the
    locale. *)
Inductive exn : Type :=
| KeyError (key : string)
| ValueError (value : string)
| OSError (path : string)
| UnicodeDecodeError (path : string).

Inductive result (A : Type) : Type :=
| Ok (a : A)
| Raise (e : exn).
Arguments Ok {A} a.
Arguments Raise {A} e.

Definition bind {A B} (r : result A) (k : A -> result B) : result B :=
  match r with
  | Ok a => k a
  | Raise e => Raise e
  end.

Notation "'let!' x ':=' m 'in' k" := (bind m (fun x => k))
  (at level 10, x name, m at level 100, k at level 200,
   format "'[v' 'let!'  x  ':='  m  'in' '/' k ']'").

Definition is_ok {A} (r : result A) : bool :=
  match r with Ok _ => true | Raise _ => false end.

(** A [for] loop that evaluates [f] on each element, left to right, and
    stops at the first exception. *)
Fixpoint mapM {A B} (f : A -> result B) (l : list A) : result (list B) :=
  match l with
  | [] => Ok []
  | x :: l' => let! y := f x in let! ys := mapM f l' in Ok (y :: ys)
  end.

(** ** Dictionaries and lists *)

Abbreviation Issue := (gmap string string).

(** A dict display [{k1: v1, ..., kn: vn}] with distinct keys *)
Definition dict (kvs : list (string * string)) : Issue := list_to_map kvs.

(** [d[k]] *)
Definition getitem (d : Issue) (k : string) : result string :=
  match d !! k with
  | Some v => Ok v
  | None => Raise (KeyError k)
  end.

(** [l.index(x)] *)
Fixpoint list_index (l : list string) (x : string) : result nat :=
  match l with
  | [] => Raise (ValueError x)
  | y :: l' =>
      if String.eqb y x then Ok 0%nat
      else let! i := list_index l' x in Ok (S i)
  end.

(** [sorted(l, key=...)]: every key is computed first, in list order; the
    sort is stable and compares keys with [<] only. *)
Section Sorted.
Context {A : Type}.

Fixpoint insert_by_key (x : nat * A) (l : list (nat * A)) : list (nat * A) :=
  match l with
  | [] => [x]
  | y :: l' =>
      if (fst y <? fst x)%nat then y :: insert_by_key x l'
      else x :: y :: l'
  end.

Fixpoint stable_sort (l : list (nat * A)) : list (nat * A) :=
  match l with
  | [] => []
  | x :: l' => insert_by_key x (stable_sort l')
  end.

(** The order the sort establishes between two keyed elements *)
Definition key_le (x y : nat * A) : Prop := (fst x <= fst y)%nat.

Definition sorted (key : A -> result nat) (l : list A) : result (list A) :=
  let! keys := mapM key l in
  Ok (map snd (stable_sort (combine keys l))).
End Sorted.

(** ** The operating system *)

(** How [open(p, 'r').read()] fails: the file cannot be opened or read
    (an [OSError]: no permission, a directory, ...), or its bytes are not
    text in the encoding of the locale *)
Inductive read_failure : Type :=
| CannotOpen
| CannotDecode.

Record FileSystem : Type := {
  (** [os.path.exists(p)]: [stat] succeeds on [p] *)
  fs_exists : string -> bool;
  (** [open(p, 'r').read()]; [None] when it raises *)
  fs_read : string -> option string;
  (** [os.walk(top)]: the [(root, dirs, files)] triples in the order
      they are yielded *)
  fs_walk : string -> list (string * list string * list string);
  (** [Path(p).stat().st_size]; [None] when [stat] raises *)
  fs_stat_size : string -> option Z;
  (** whether [open(p, 'w')] succeeds *)
  fs_can_write : string -> bool;
  (** how the read of [p] fails when [fs_read] is [None] *)
  fs_read_failure : string -> read_failure;
  (** [stat] fails on [p] for another reason than the absence of the
      file (no permission to search a directory, a name too long):
      [os.path.exists(p)] answers [False], [Path(p).exists()] raises *)
  fs_stat_refused : string -> bool;
  (** [f.write(text)] and the closing of a file opened with
      [open(p, 'w')]: [None] when they complete, [Some remains] when one
      of them raises (the text cannot be encoded, the disk is full),
      [remains] being what the file then holds *)
  fs_write : string -> string -> option string;
  (** whether [print(text)] succeeds *)
  fs_print : string -> bool
}.

Definition open_read (fs : FileSystem) (p : string) : result string :=
  match fs_read fs p with
  | Some content => Ok content
  | None =>
      match fs_read_failure fs p with
      | CannotOpen => Raise (OSError p)
      | CannotDecode => Raise (UnicodeDecodeError p)
      end
  end.

(** [os.path.join(a, b)] on a POSIX system *)
Definition os_path_join (a b : string) : string :=
  if String.prefix "/" b then b
  else if String.eqb a "" || PyStr.endswith a "/" then a +:+ b
  else a +:+ "/" +:+ b.

(** [datetime.now()] *)
Record datetime : Type := {
  year : nat; month : nat; day : nat;
  hour : nat; minute : nat; second : nat; microsecond : nat
}.

(** [t.strftime('%Y-%m-%d %H:%M:%S')], for a year of four digits as
    the clock gives it *)
Definition strftime (t : datetime) : string :=
  PyStr.pad 4 (year t) +:+ "-" +:+ PyStr.pad 2 (month t) +:+ "-" +:+
  PyStr.pad 2 (day t) +:+ " " +:+ PyStr.pad 2 (hour t) +:+ ":" +:+
  PyStr.pad 2 (minute t) +:+ ":" +:+ PyStr.pad 2 (second t).


(** ** [kimi-dev-system-debug.py] *)

Module SystemDebug.

(** An entry of the list returned by [generate_systematic_fixes]:
    [{"priority": i, "issue": issue, "implementation_steps": [...]}] *)
Record Fix : Type := {
  priority : nat;
  issue : Issue;
  implementation_steps : list string
}.

(** The object: the attributes set by [__init__] *)
Record SystemDebugAnalyzer : Type := {
  repo_path : string;
  issues : list Issue;
  fixes : list Fix
}.

Definition __init__ (repo_path : string) : SystemDebugAnalyzer :=
  {| repo_path := repo_path; issues := []; fixes := [] |}.

(** A method call: it may raise, and it returns the object as the call
    leaves it. *)
Definition method (A : Type) : Type :=
  SystemDebugAnalyzer -> result A * SystemDebugAnalyzer.

Definition ret {A} (a : A) : method A := fun self => (Ok a, self).

Definition lift {A} (r : result A) : method A := fun self => (r, self).

Definition call {A B} (m : method A) (k : A -> method B) : method B :=
  fun self =>
    match m self with
    | (Ok a, self') => k a self'
    | (Raise e, self') => (Raise e, self')
    end.

Notation "'call!' x ':=' m 'in' k" := (call m (fun x => k))
  (at level 10, x name, m at level 100, k at level 200,
   format "'[v' 'call!'  x  ':='  m  'in' '/' k ']'").

(** [self.repo_path] *)
Definition self_repo_path : method string :=
  fun self => (Ok (repo_path self), self).

Section Analyses.
Variable fs : FileSystem.

Definition analyze_database_schema_errors : method (list Issue) :=
  call! root := self_repo_path in
  let storage_file :=
    os_path_join (os_path_join root "server") "storage.ts" in
  if fs_exists fs storage_file then
    call! content := lift (open_read fs storage_file) in
    if PyStr.contains "monthly_target" content then
      ret [dict [("type", "critical");
                 ("category", "database_schema");
                 ("title", "Missing monthly_target column in database");
                 ("file", "server/storage.ts");
                 ("description", "Code references monthly_target column that doesn't exist in database");
                 ("impact", "API endpoints failing with 500 errors");
                 ("fix", "Remove monthly_target references or add column to schema")]]
    else ret []
  else ret [].

Definition performance_files : list string :=
  ["client/src/pages/performance.tsx";
   "client/src/pages/performance-simple.tsx";
   "client/src/pages/performance-direct.tsx"].

Definition date_issue (file_path : string) : Issue :=
  dict [("type", "data_accuracy");
        ("category", "date_consistency");
        ("title", "Hardcoded October dates in " +:+ file_path);
        ("file", file_path);
        ("description", "Sales data showing October 2025 instead of current June");
        ("impact", "Incorrect date display in performance analytics");
        ("fix", "Update to dynamic current month or correct June data")].

(** The [for file_path in performance_files] loop; [acc] is the local
    list [issues] on entry. *)
Fixpoint date_loop (files : list string) (acc : list Issue)
  : method (list Issue) :=
  match files with
  | [] => ret acc
  | file_path :: rest =>
      call! root := self_repo_path in
      let full_path := os_path_join root file_path in
      if fs_exists fs full_path then
        call! content := lift (open_read fs full_path) in
        if PyStr.contains "month=10" content
           || PyStr.contains "October" content
        then date_loop rest (acc ++ [date_issue file_path])
        else date_loop rest acc
      else date_loop rest acc
  end.

Definition analyze_date_inconsistencies : method (list Issue) :=
  date_loop performance_files [].

Definition analyze_client_deletion_errors : method (list Issue) :=
  call! root := self_repo_path in
  let routes_file :=
    os_path_join (os_path_join root "server") "routes.ts" in
  if fs_exists fs routes_file then
    call! content := lift (open_read fs routes_file) in
    if PyStr.contains "DELETE" content
       && PyStr.contains "/api/clients" content
    then
      if negb (PyStr.contains "foreign key" (PyStr.lower content)) then
        ret [dict [("type", "functionality");
                   ("category", "client_management");
                   ("title", "Client deletion missing foreign key handling");
                   ("file", "server/routes.ts");
                   ("description", "Client deletion may fail due to foreign key constraints");
                   ("impact", "Users cannot delete clients with existing sales");
                   ("fix", "Add proper foreign key constraint error handling")]]
      else ret []
    else ret []
  else ret [].

Definition analyze_ui_display_inconsistencies : method (list Issue) :=
  call! root := self_repo_path in
  let app_file :=
    os_path_join (os_path_join (os_path_join root "client") "src")
                 "App.tsx" in
  if fs_exists fs app_file then
    call! content := lift (open_read fs app_file) in
    let lazy_count := PyStr.count content "lazy(" in
    let direct_import_count :=
      (PyStr.count content "import "
       - PyStr.count content "import { lazy")%Z in
    if (0 <? lazy_count)%Z && (0 <? direct_import_count)%Z then
      ret [dict [("type", "ui_consistency");
                 ("category", "component_loading");
                 ("title", "Mixed lazy and direct component loading");
                 ("file", "client/src/App.tsx");
                 ("description", "Different loading strategies causing UI inconsistencies");
                 ("impact", "Performance dashboard looks different in preview vs full view");
                 ("fix", "Standardize component loading strategy")]]
    else ret []
  else ret [].

Definition files_to_check : list string :=
  ["server/storage.ts";
   "server/routes.ts";
   "shared/schema.ts";
   "client/src/pages/performance-direct.tsx"].

Definition commission_issue (file_path : string) : Issue :=
  dict [("type", "feature_removal");
        ("category", "commission_system");
        ("title", "Commission references in " +:+ file_path);
        ("file", file_path);
        ("description", "Commission system needs to be removed as requested");
        ("impact", "Unnecessary commission data displayed");
        ("fix", "Remove commission calculations and UI elements")].

(** The [for file_path in files_to_check] loop *)
Fixpoint commission_loop (files : list string) (acc : list Issue)
  : method (list Issue) :=
  match files with
  | [] => ret acc
  | file_path :: rest =>
      call! root := self_repo_path in
      let full_path := os_path_join root file_path in
      if fs_exists fs full_path then
        call! content := lift (open_read fs full_path) in
        if PyStr.contains "commission" (PyStr.lower content)
        then commission_loop rest (acc ++ [commission_issue file_path])
        else commission_loop rest acc
      else commission_loop rest acc
  end.

Definition analyze_commission_system_removal : method (list Issue) :=
  commission_loop files_to_check [].

(** The [if]/[elif] chain of [generate_fix_steps] on the value of
    [issue["category"]] *)
Definition steps_for_category (category : string) : list string :=
  if String.eqb category "database_schema" then
    ["Remove monthly_target column references from storage.ts";
     "Update API queries to exclude monthly_target";
     "Test stores and sales-persons endpoints"]
  else if String.eqb category "date_consistency" then
    ["Update hardcoded October dates to June 2025";
     "Change month=10 to month=6 in API calls";
     "Update display text from October to June"]
  else if String.eqb category "client_management" then
    ["Add foreign key constraint error handling";
     "Implement cascade delete or proper error messaging";
     "Test client deletion with existing sales"]
  else if String.eqb category "component_loading" then
    ["Convert all lazy components to direct imports";
     "Remove React.lazy() wrappers causing suspension";
     "Test performance dashboard consistency"]
  else if String.eqb category "commission_system" then
    ["Remove commission calculations from backend";
     "Remove commission UI elements from frontend";
     "Update performance analytics to exclude commission data"]
  else ["Manual analysis required"].

Definition generate_fix_steps (issue : Issue) : method (list string) :=
  call! category := lift (getitem issue "category") in
  ret (steps_for_category category).

Definition priority_order : list string :=
  ["critical"; "functionality"; "ui_consistency"; "data_accuracy";
   "feature_removal"].

(** [lambda x: priority_order.index(x["type"])] *)
Definition priority_key (x : Issue) : result nat :=
  let! t := getitem x "type" in
  list_index priority_order t.

(** The [for i, issue in enumerate(sorted_issues, 1)] loop, entered
    with counter [i] and the local list [fixes] equal to [acc] *)
Fixpoint enumerate_loop (i : nat) (sorted_issues : list Issue)
  (acc : list Fix) : method (list Fix) :=
  match sorted_issues with
  | [] => ret acc
  | issue :: rest =>
      call! steps := generate_fix_steps issue in
      enumerate_loop (S i) rest
        (acc ++ [{| priority := i; issue := issue;
                    implementation_steps := steps |}])
  end.

(** Lines 165-178: what [generate_systematic_fixes] does with the
    local list [all_issues] once the analyses have filled it *)
Definition prioritize (all_issues : list Issue) : method (list Fix) :=
  call! sorted_issues := lift (sorted priority_key all_issues) in
  enumerate_loop 1 sorted_issues [].

Definition generate_systematic_fixes : method (list Fix) :=
  let all_issues := [] in
  call! l1 := analyze_database_schema_errors in
  let all_issues := all_issues ++ l1 in
  call! l2 := analyze_date_inconsistencies in
  let all_issues := all_issues ++ l2 in
  call! l3 := analyze_client_deletion_errors in
  let all_issues := all_issues ++ l3 in
  call! l4 := analyze_ui_display_inconsistencies in
  let all_issues := all_issues ++ l4 in
  call! l5 := analyze_commission_system_removal in
  let all_issues := all_issues ++ l5 in
  prioritize all_issues.

End Analyses.

Section Report.
Variable fs : FileSystem.

(** The closing text of the report, line by line *)
Definition report_footer : string :=
  PyStr.join PyStr.nl
  ["";
   "## Recommended Implementation Order:";
   "1. Fix critical database schema errors first (stores/sales-persons API)";
   "2. Fix client deletion functionality";
   "3. Standardize component loading to fix UI inconsistencies";
   "4. Update date consistency (October ‚Üí June)";
   "5. Remove commission system as requested";
   "";
   "## Expected Outcomes:";
   "- ‚úì Stores and sales persons data restored in Sales tab";
   "- ‚úì Client deletion working properly";
   "- ‚úì Performance dashboard consistent between preview and full view";
   "- ‚úì Sales data showing correct June 2025 dates";
   "- ‚úì Commission data removed as requested";
   ""].

(** The [for step in fix["implementation_steps"]] loop *)
Fixpoint steps_loop (steps : list string) (report : string) : string :=
  match steps with
  | [] => report
  | step :: rest => steps_loop rest (report +:+ "- " +:+ step +:+ PyStr.nl)
  end.

(** The section of the report written for one fix *)
Definition fix_section (fix_ : Fix) : result string :=
  let issue := issue fix_ in
  let! title := getitem issue "title" in
  let! type := getitem issue "type" in
  let! file := getitem issue "file" in
  let! impact := getitem issue "impact" in
  let! description := getitem issue "description" in
  Ok (PyStr.nl +:+
      "### Priority " +:+ PyStr.str_of_nat (priority fix_) +:+ ": "
        +:+ title +:+ PyStr.nl +:+
      "- **Type**: "
        +:+ PyStr.title (PyStr.replace_char "_" " " type) +:+ PyStr.nl +:+
      "- **File**: " +:+ file +:+ PyStr.nl +:+
      "- **Impact**: " +:+ impact +:+ PyStr.nl +:+
      "- **Description**: " +:+ description +:+ PyStr.nl +:+
      PyStr.nl +:+
      "**Implementation Steps:**" +:+ PyStr.nl).

(** The [for fix in fixes] loop *)
Fixpoint fixes_loop (fixes : list Fix) (report : string) : method string :=
  match fixes with
  | [] => ret report
  | fix_ :: rest =>
      call! section := lift (fix_section fix_) in
      let report := report +:+ section in
      let report := steps_loop (implementation_steps fix_) report in
      let report := report +:+ PyStr.nl in
      fixes_loop rest report
  end.

Definition report_header (generated : string) (count : nat) : string :=
  PyStr.nl +:+
  "# Kimi-Dev System Debug Report" +:+ PyStr.nl +:+
  "Generated: " +:+ generated +:+ PyStr.nl +:+
  PyStr.nl +:+
  "## Issues Identified: " +:+ PyStr.str_of_nat count +:+ PyStr.nl +:+
  PyStr.nl.

(** [now] is what [datetime.now()] returns when the header is
    formatted. *)
Definition create_implementation_report (now : datetime) : method string :=
  call! fixes := generate_systematic_fixes fs in
  let report := report_header (strftime now) (length fixes) in
  call! report := fixes_loop fixes report in
  ret (report +:+ report_footer).






End Report.

End SystemDebug.


(** ** [pathlib]: pure POSIX paths *)

Module PathLib.

Record Path : Type := {
  anchor : string;           (* [""], ["/"] or ["//"] *)
  parts : list string        (* the components after the anchor *)
}.

(** [s.split("/")]; [cur] is the component being read *)
Fixpoint split_go (cur s : string) : list string :=
  match s with
  | "" => [cur]
  | String c s' =>
      if Ascii.eqb c "/" then cur :: split_go "" s'
      else split_go (cur +:+ String c "") s'
  end.

Definition keep_part (x : string) : bool :=
  negb (String.eqb x "" || String.eqb x ".").

(** [Path(s)]: empty and ["."] components are dropped; exactly two
    leading slashes are kept apart from one. *)
Definition parse (s : string) : Path :=
  {| anchor :=
       if String.prefix "//" s && negb (String.prefix "///" s) then "//"
       else if String.prefix "/" s then "/" else "";
     parts := List.filter keep_part (split_go "" s) |}.

(** [str(p)] *)
Definition str (p : Path) : string :=
  match anchor p, parts p with
  | "", [] => "."
  | a, ps => a +:+ PyStr.join "/" ps
  end.

(** [p / s] *)
Definition truediv (p : Path) (s : string) : Path :=
  let q := parse s in
  if String.eqb (anchor q) "" then
    {| anchor := anchor p; parts := parts p ++ parts q |}
  else q.

Fixpoint strip_parts (base l : list string) : option (list string) :=
  match base with
  | [] => Some l
  | b :: base' =>
      match l with
      | [] => None
      | x :: l' => if String.eqb b x then strip_parts base' l' else None
      end
  end.

(** [p.relative_to(base)] *)
Definition relative_to (p base : Path) : result Path :=
  if String.eqb (anchor p) (anchor base) then
    match strip_parts (parts base) (parts p) with
    | Some rest => Ok {| anchor := ""; parts := rest |}
    | None => Raise (ValueError (str p))
    end
  else Raise (ValueError (str p)).

End PathLib.

(** ** [kimi-dev-phase2-analyzer.py] *)

Module Phase2.
Import PathLib.

Record Phase2Analyzer : Type := { repo_path : Path }.

Definition __init__ (repo_path : string) : Phase2Analyzer :=
  {| repo_path := parse repo_path |}.

(** An entry of the local list [large_components]; [size] is
    [st_size], from which ["size_kb"] is computed. *)
Record LargeComponent : Type := { lc_file : string; lc_size : Z }.

(** [round(file_size / 1024, 2)], in hundredths.  The quotient is exact
    in binary floating point for sizes below 2^53; [round] then takes
    the nearest hundredth, ties to the even one. *)
Definition size_kb_hundredths (file_size : Z) : Z :=
  let n := (file_size * 100)%Z in
  let q := (n / 1024)%Z in
  let r := (n mod 1024)%Z in
  if (r <? 512)%Z then q
  else if (512 <? r)%Z then (q + 1)%Z
  else if Z.even q then q else (q + 1)%Z.

(** [f"{size_kb}"]: the shortest decimal, with at least one digit
    after the point *)
Definition render_size_kb (file_size : Z) : string :=
  let h := size_kb_hundredths file_size in
  let whole := PyStr.str_of_nat (Z.to_nat (h / 100)) in
  let frac := Z.to_nat (h mod 100) in
  if (frac mod 10 =? 0)%nat
  then whole +:+ "." +:+ PyStr.str_of_nat (frac / 10)
  else whole +:+ "." +:+ PyStr.pad 2 frac.

(** [re.search(r'try\s*\{.*?\}\s*catch', content, re.DOTALL)] finds a
    match.  Neither ["{"] nor ["c"] is a space, so each [\s*] has one
    way to match. *)
Fixpoint spaces_then (lit s : string) : option string :=
  match s with
  | "" => PyStr.strip_prefix lit ""
  | String c s' =>
      if PyStr.is_space c then spaces_then lit s'
      else PyStr.strip_prefix lit s
  end.

Fixpoint closes_with_catch (s : string) : bool :=
  match s with
  | "" => false
  | String c s' =>
      (Ascii.eqb c "}" && bool_decide (is_Some (spaces_then "catch" s')))
      || closes_with_catch s'
  end.

Definition try_catch_at (s : string) : bool :=
  match PyStr.strip_prefix "try" s with
  | Some r =>
      match spaces_then "{" r with
      | Some body => closes_with_catch body
      | None => false
      end
  | None => false
  end.

Fixpoint search_try_catch (s : string) : bool :=
  try_catch_at s ||
  match s with
  | "" => false
  | String _ s' => search_try_catch s'
  end.

Section Analyses.
Variable self : Phase2Analyzer.
Variable fs : FileSystem.

(** [p.exists()]: unlike [os.path.exists], it lets through the errors
    of [stat] other than the absence of the file. *)
Definition path_exists (p : Path) : result bool :=
  if fs_exists fs (str p) then Ok true
  else if fs_stat_refused fs (str p) then Raise (OSError (str p))
  else Ok false.
Definition path_read (p : Path) : result string := open_read fs (str p).

Definition analyze_dashboard_metrics_error : result (list Issue) :=
  let routes_path := truediv (repo_path self) "server/routes.ts" in
  let! found := path_exists routes_path in
  if found then
    let! content := path_read routes_path in
    if PyStr.contains "/api/dashboard/metrics" content then
      Ok [dict [("file", "server/routes.ts");
                ("issue", "Dashboard metrics database error - Date object serialization");
                ("severity", "HIGH");
                ("description", "ERR_INVALID_ARG_TYPE: Date object passed where string expected in PostgreSQL query");
                ("fix", "Convert Date objects to ISO strings before database queries");
                ("error_pattern",
                 "The " +:+ PyStr.dq +:+ "string" +:+ PyStr.dq +:+
                 " argument must be of type string or an instance of Buffer")]]
    else Ok []
  else Ok [].

Definition image_components : list string :=
  ["client/src/components/inventory-table.tsx";
   "client/src/components/inventory-card-view.tsx";
   "client/src/components/item-details-modal.tsx"].

Definition loading_eager : string :=
  "loading=" +:+ PyStr.dq +:+ "eager" +:+ PyStr.dq.

Definition eager_issue (component_path : string) : Issue :=
  dict [("file", component_path);
        ("issue", "Images using eager loading instead of lazy loading");
        ("severity", "MEDIUM");
        ("description", "All images load immediately, impacting initial page performance");
        ("fix", "Implement intersection observer-based lazy loading for images")].

Definition no_loading_issue (component_path : string) : Issue :=
  dict [("file", component_path);
        ("issue", "Images missing loading strategy");
        ("severity", "MEDIUM");
        ("description", "No loading strategy specified for images");
        ("fix", "Add loading='lazy' attribute to non-critical images")].

Fixpoint image_loop (components : list string) (acc : list Issue)
  : result (list Issue) :=
  match components with
  | [] => Ok acc
  | component_path :: rest =>
      let path := truediv (repo_path self) component_path in
      let! found := path_exists path in
      if found then
        let! content := path_read path in
        let acc :=
          if PyStr.contains loading_eager content
             || PyStr.contains loading_eager content
          then acc ++ [eager_issue component_path] else acc in
        let acc :=
          if PyStr.contains "<img" content
             && negb (PyStr.contains "loading=" content)
          then acc ++ [no_loading_issue component_path] else acc in
        image_loop rest acc
      else image_loop rest acc
  end.

Definition analyze_image_lazy_loading_opportunities : result (list Issue) :=
  image_loop image_components [].

(** The body of the inner loop of the walk, lines 99-109: what one
    file name adds to [large_components].  Whatever is raised inside
    the [try] is discarded by the bare [except]. *)
Definition visit_file (root file : string) (acc : list LargeComponent)
  : list LargeComponent :=
  if PyStr.endswith file ".tsx" || PyStr.endswith file ".ts" then
    let file_path := truediv (parse root) file in
    match fs_stat_size fs (str file_path) with
    | Some file_size =>
        if (15000 <? file_size)%Z then
          match relative_to file_path (repo_path self) with
          | Ok rel =>
              acc ++ [{| lc_file := str rel; lc_size := file_size |}]
          | Raise _ => acc
          end
        else acc
    | None => acc
    end
  else acc.

Fixpoint files_loop (root : string) (files : list string)
  (acc : list LargeComponent) : list LargeComponent :=
  match files with
  | [] => acc
  | file :: rest => files_loop root rest (visit_file root file acc)
  end.

Fixpoint walk_loop (walk : list (string * list string * list string))
  (acc : list LargeComponent) : list LargeComponent :=
  match walk with
  | [] => acc
  | (root, _, files) :: rest => walk_loop rest (files_loop root files acc)
  end.

Definition find_large_components : list LargeComponent :=
  walk_loop (fs_walk fs (str (truediv (repo_path self) "client/src"))) [].

Definition large_components_issue (large_components : list LargeComponent)
  : Issue :=
  let component_list :=
    map (fun c => lc_file c +:+ " (" +:+ render_size_kb (lc_size c) +:+ "KB)")
        (take 3 large_components) in
  let description :=
    "Large components increase bundle size: "
    +:+ PyStr.join ", " component_list in
  dict [("file", "Multiple large components");
        ("issue", "Large component files detected");
        ("severity", "MEDIUM");
        ("description", description);
        ("fix", "Implement code splitting and lazy loading for large components")].

(** Lines 111-123 *)
Definition report_large_components
  (large_components : list LargeComponent) (acc : list Issue) : list Issue :=
  match large_components with
  | [] => acc
  | _ :: _ => acc ++ [large_components_issue large_components]
  end.

Definition analyze_bundle_size_optimization : result (list Issue) :=
  let large_components := find_large_components in
  let issues := report_large_components large_components [] in
  let app_path := truediv (repo_path self) "client/src/App.tsx" in
  let! found := path_exists app_path in
  if found then
    let! content := path_read app_path in
    if negb (PyStr.contains "React.lazy" content)
       && negb (PyStr.contains "lazy(" content)
    then
      Ok (issues ++
          [dict [("file", "client/src/App.tsx");
                 ("issue", "No code splitting implemented");
                 ("severity", "MEDIUM");
                 ("description", "All components loaded synchronously, increasing initial bundle size");
                 ("fix", "Implement React.lazy for non-critical route components")]])
    else Ok issues
  else Ok issues.

Definition critical_components : list string :=
  ["client/src/components/image-upload.tsx";
   "client/src/components/item-details-modal.tsx";
   "client/src/pages/dashboard.tsx"].

Definition error_handling_issue (component_path : string) : Issue :=
  dict [("file", component_path);
        ("issue", "Missing comprehensive error handling");
        ("severity", "MEDIUM");
        ("description", "No try-catch blocks or error boundaries detected");
        ("fix", "Add error boundaries and try-catch for async operations")].

Fixpoint error_handling_loop (components : list string) (acc : list Issue)
  : result (list Issue) :=
  match components with
  | [] => Ok acc
  | component_path :: rest =>
      let path := truediv (repo_path self) component_path in
      let! found := path_exists path in
      if found then
        let! content := path_read path in
        let has_try_catch := search_try_catch content in
        let has_error_boundary := PyStr.contains "ErrorBoundary" content in
        if negb has_try_catch && negb has_error_boundary
        then error_handling_loop rest
               (acc ++ [error_handling_issue component_path])
        else error_handling_loop rest acc
      else error_handling_loop rest acc
  end.

Definition analyze_error_handling_gaps : result (list Issue) :=
  error_handling_loop critical_components [].

Definition analyze_performance_monitoring_gaps : result (list Issue) :=
  let issues := [] in
  let server_index := truediv (repo_path self) "server/index.ts" in
  let! issues :=
    let! found := path_exists server_index in
    if found then
      let! content := path_read server_index in
      if negb (PyStr.contains "performance" (PyStr.lower content))
         && negb (PyStr.contains "timing" (PyStr.lower content))
      then
        Ok (issues ++
            [dict [("file", "server/index.ts");
                   ("issue", "No performance monitoring middleware");
                   ("severity", "LOW");
                   ("description", "No request timing or performance metrics collection");
                   ("fix", "Add express middleware for request timing and performance metrics")]])
      else Ok issues
    else Ok issues in
  let main_tsx := truediv (repo_path self) "client/src/main.tsx" in
  let! found := path_exists main_tsx in
  if found then
    let! content := path_read main_tsx in
    if negb (PyStr.contains "performance" (PyStr.lower content))
       && negb (PyStr.contains "vitals" (PyStr.lower content))
    then
      Ok (issues ++
          [dict [("file", "client/src/main.tsx");
                 ("issue", "No client-side performance monitoring");
                 ("severity", "LOW");
                 ("description", "No Web Vitals or performance metrics collection");
                 ("fix", "Add Web Vitals monitoring for Core Web Vitals metrics")]])
    else Ok issues
  else Ok issues.

Definition analyze_api_response_optimization : result (list Issue) :=
  let issues := [] in
  let routes_path := truediv (repo_path self) "server/routes.ts" in
  let! found := path_exists routes_path in
  if found then
    let! content := path_read routes_path in
    let issues :=
      if PyStr.contains "/api/inventory" content
         && negb (PyStr.contains "limit" content)
      then
        issues ++
        [dict [("file", "server/routes.ts");
               ("issue", "Inventory API missing pagination");
               ("severity", "MEDIUM");
               ("description", "Inventory endpoint returns all items without pagination");
               ("fix", "Implement pagination with limit/offset parameters")]]
      else issues in
    let issues :=
      if negb (PyStr.contains "compression" content)
         && negb (PyStr.contains "gzip" content)
      then
        issues ++
        [dict [("file", "server/index.ts");
               ("issue", "No response compression middleware");
               ("severity", "LOW");
               ("description", "API responses not compressed, increasing transfer size");
               ("fix", "Add compression middleware for gzip/deflate responses")]]
      else issues in
    Ok issues
  else Ok issues.

(** All six analyses, in the order of lines 253-259 *)
Definition collect_all_issues : result (list Issue) :=
  let all_issues := [] in
  let! l1 := analyze_dashboard_metrics_error in
  let all_issues := all_issues ++ l1 in
  let! l2 := analyze_image_lazy_loading_opportunities in
  let all_issues := all_issues ++ l2 in
  let! l3 := analyze_bundle_size_optimization in
  let all_issues := all_issues ++ l3 in
  let! l4 := analyze_error_handling_gaps in
  let all_issues := all_issues ++ l4 in
  let! l5 := analyze_performance_monitoring_gaps in
  let all_issues := all_issues ++ l5 in
  let! l6 := analyze_api_response_optimization in
  Ok (all_issues ++ l6).

End Analyses.

(** The dict returned by [generate_phase2_improvements] *)
Record Improvements : Type := {
  high_priority : list Issue;
  medium_priority : list Issue;
  low_priority : list Issue;
  total_issues : nat
}.

(** [[issue for issue in all_issues if issue["severity"] == level]] *)
Fixpoint with_severity (level : string) (all_issues : list Issue)
  : result (list Issue) :=
  match all_issues with
  | [] => Ok []
  | issue :: rest =>
      let! severity := getitem issue "severity" in
      let! selected := with_severity level rest in
      Ok (if String.eqb severity level then issue :: selected else selected)
  end.

(** Lines 261-271: the buckets built from the local list [all_issues] *)
Definition categorize (all_issues : list Issue) : result Improvements :=
  let! high_priority := with_severity "HIGH" all_issues in
  let! medium_priority := with_severity "MEDIUM" all_issues in
  let! low_priority := with_severity "LOW" all_issues in
  Ok {| high_priority := high_priority;
        medium_priority := medium_priority;
        low_priority := low_priority;
        total_issues := length all_issues |}.

Definition generate_phase2_improvements
  (self : Phase2Analyzer) (fs : FileSystem) : result Improvements :=
  let! all_issues := collect_all_issues self fs in
  categorize all_issues.

End Phase2.

(** ** Vocabulary of the properties *)

Module SystemDebugFacts.
Import SystemDebug.

(** A method that leaves the object as it found it and whose outcome
    depends on no attribute but [repo_path] *)
Definition reads_only_repo_path {A} (m : method A) : Prop :=
  (forall self, snd (m self) = self) /\
  (forall self self',
      repo_path self = repo_path self' -> fst (m self) = fst (m self')).

(** The keys every issue of [kimi-dev-system-debug.py] is built with *)
Definition issue_keys : list string :=
  ["type"; "category"; "title"; "file"; "description"; "impact"; "fix"].

Definition has_key (x : Issue) (k : string) : bool :=
  bool_decide (is_Some (x !! k)).

(** An issue as the analyses build them: all seven keys, and a type of
    the priority table *)
Definition well_formed (x : Issue) : bool :=
  forallb (has_key x) issue_keys && is_ok (priority_key x).

Definition all_well_formed (l : list Issue) : Prop :=
  Forall (fun x => well_formed x = true) l.

(** An issue without a ["severity"] key *)
Definition no_severity (x : Issue) : bool :=
  bool_decide (x !! "severity" = None).

(** The pure reading of [generate_fix_steps] *)
Definition fix_steps (x : Issue) : result (list string) :=
  let! category := getitem x "category" in
  Ok (steps_for_category category).

(** The entries [enumerate] builds from position [i] on *)
Fixpoint numbered (i : nat) (l : list Issue) (stepss : list (list string))
  : list Fix :=
  match l, stepss with
  | x :: l', steps :: stepss' =>
      {| priority := i; issue := x; implementation_steps := steps |}
      :: numbered (S i) l' stepss'
  | _, _ => []
  end.

End SystemDebugFacts.

(** ** The claims in the words of the specification *)

Module Spec.
Import SystemDebug.

Definition severity_table : list string := ["CRITICAL"; "HIGH"; "MEDIUM"; "LOW"].

(** [category_rank]: the position in the priority table (past its end
    when the table has no such entry) *)
Definition category_rank (x : Issue) : nat :=
  match priority_key x with
  | Ok n => n
  | Raise _ => length priority_order
  end.

(** [severity_rank]: CRITICAL < HIGH < MEDIUM < LOW, a missing or
    unknown severity counting as the default MEDIUM *)
Definition severity_rank (x : Issue) : nat :=
  match x !! "severity" with
  | Some s => match list_index severity_table s with Ok n => n | Raise _ => 2 end
  | None => 2
  end.

Definition file_path (x : Issue) : string := default "" (x !! "file").
Definition rule_id (x : Issue) : string := default "" (x !! "rule_id").

(** The key [(category_rank, severity_rank, file_path, rule_id)],
    compared lexicographically *)
Definition full_key_ltb (a b : Issue) : bool :=
  (category_rank a <? category_rank b)%nat ||
  ((category_rank a =? category_rank b)%nat &&
   ((severity_rank a <? severity_rank b)%nat ||
    ((severity_rank a =? severity_rank b)%nat &&
     (String.ltb (file_path a) (file_path b) ||
      (String.eqb (file_path a) (file_path b) &&
       String.ltb (rule_id a) (rule_id b)))))).

(** "For every pair of findings A, B: a smaller full key means an
    earlier place." *)
Definition ordered_by_full_key (fixes : list Fix) : bool :=
  forallb (fun A =>
    forallb (fun B =>
      implb (full_key_ltb (issue A) (issue B))
            (priority A <? priority B)%nat) fixes) fixes.

(** The step-template table: a mapping from category to steps *)
Definition step_templates : gmap string (list string) :=
  list_to_map
    [("database_schema",
      ["Remove monthly_target column references from storage.ts";
       "Update API queries to exclude monthly_target";
       "Test stores and sales-persons endpoints"]);
     ("date_consistency",
      ["Update hardcoded October dates to June 2025";
       "Change month=10 to month=6 in API calls";
       "Update display text from October to June"]);
     ("client_management",
      ["Add foreign key constraint error handling";
       "Implement cascade delete or proper error messaging";
       "Test client deletion with existing sales"]);
     ("component_loading",
      ["Convert all lazy components to direct imports";
       "Remove React.lazy() wrappers causing suspension";
       "Test performance dashboard consistency"]);
     ("commission_system",
      ["Remove commission calculations from backend";
       "Remove commission UI elements from frontend";
       "Update performance analytics to exclude commission data"])].

(** Dispatch on the category, with the single fallback step *)
Definition dispatch_steps (category : string) : list string :=
  default ["Manual analysis required"] (step_templates !! category).

End Spec.

(** ** Sample inputs *)

Module Examples.

(** A tree whose two server files both mention commissions *)
Definition fs_commission : FileSystem :=
  {| fs_exists := fun p =>
       String.eqb p "./server/storage.ts" || String.eqb p "./server/routes.ts";
     fs_read := fun p =>
       if String.eqb p "./server/storage.ts"
       then Some "const rate = salesPerson.Commission;"
       else if String.eqb p "./server/routes.ts"
       then Some "res.json({ commission })"
       else None;
     fs_walk := fun _ => [];
     fs_stat_size := fun _ => None;
     fs_can_write := fun _ => true;
     fs_read_failure := fun _ => CannotOpen;
     fs_stat_refused := fun _ => false;
     fs_write := fun _ _ => None;
     fs_print := fun _ => true |}.


Definition monday_morning : datetime :=
  {| year := 2025; month := 6; day := 2;
     hour := 9; minute := 5; second := 59; microsecond := 120 |}.

(** The same second, some microseconds later *)
Definition same_second : datetime :=
  {| year := 2025; month := 6; day := 2;
     hour := 9; minute := 5; second := 59; microsecond := 480 |}.

(** One second later *)
Definition next_second : datetime :=
  {| year := 2025; month := 6; day := 2;
     hour := 9; minute := 6; second := 0; microsecond := 3 |}.

End Examples.

Module Outputs.
Import SystemDebug.

(** What the run on [Examples.fs_commission] returns *)
Definition commission_fixes : list Fix :=
  [ {| priority := 1;
       issue := commission_issue "server/storage.ts";
       implementation_steps := steps_for_category "commission_system" |};
    {| priority := 2;
       issue := commission_issue "server/routes.ts";
       implementation_steps := steps_for_category "commission_system" |} ].

(** Issues as three analyses might emit them, in emission order *)
Definition mixed_issues : list Issue :=
  [ date_issue "client/src/pages/performance.tsx";
    commission_issue "server/storage.ts";
    date_issue "client/src/pages/performance-direct.tsx";
    commission_issue "server/routes.ts" ].

Definition mixed_sorted : list Issue :=
  [ date_issue "client/src/pages/performance.tsx";
    date_issue "client/src/pages/performance-direct.tsx";
    commission_issue "server/storage.ts";
    commission_issue "server/routes.ts" ].

End Outputs.

Module SpecRuns.
Import SystemDebug.




(** Two consecutive runs of the report on one object, the clock
    reading [t1] in the first and [t2] in the second *)
Definition two_reports (fs : FileSystem) (t1 t2 : datetime)
    (self : SystemDebugAnalyzer) : result string * result string :=
  let '(r1, self1) := create_implementation_report fs t1 self in
  let '(r2, _) := create_implementation_report fs t2 self1 in
  (r1, r2).

End SpecRuns.

Module Phase2Facts.
Import PathLib Phase2.



(** What every issue of [kimi-dev-phase2-analyzer.py] looks like: no
    ["category"] key, and a severity of the three buckets *)
Definition emitted (x : Issue) : bool :=
  bool_decide (x !! "category" = None) &&
  match x !! "severity" with
  | Some s => String.eqb s "HIGH" || String.eqb s "MEDIUM" || String.eqb s "LOW"
  | None => false
  end.

Definition all_emitted (l : list Issue) : Prop :=
  Forall (fun x => emitted x = true) l.

(** "Normalised to the default severity" *)
Definition normalized (x : Issue) : Prop := x !! "severity" = Some "MEDIUM".

(** A finding as the phase-2 analyses build it, spelt out *)
Definition unclassified (x : Issue) : Prop :=
  x !! "category" = None /\
  (x !! "severity" = Some "HIGH" \/ x !! "severity" = Some "MEDIUM"
   \/ x !! "severity" = Some "LOW").



(** The file [p] under [root] exists and mentions commissions *)
Definition commission_match (fs : FileSystem) (root p : string) : bool :=
  fs_exists fs (os_path_join root p) &&
  match fs_read fs (os_path_join root p) with
  | Some content => PyStr.contains "commission" (PyStr.lower content)
  | None => false
  end.

End Phase2Facts.

Module Phase2Examples.

(** [client/src] holds two components of 20000 and 31000 bytes *)
Definition fs_two_large : FileSystem :=
  {| fs_exists := fun _ => false;
     fs_read := fun _ => None;
     fs_walk := fun top =>
       if String.eqb top "client/src"
       then [("client/src", ["pages"], ["App.tsx"]);
             ("client/src/pages", [], ["inventory.tsx"])]
       else [];
     fs_stat_size := fun p =>
       if String.eqb p "client/src/App.tsx" then Some 20000%Z
       else if String.eqb p "client/src/pages/inventory.tsx" then Some 31000%Z
       else None;
     fs_can_write := fun _ => true;
     fs_read_failure := fun _ => CannotOpen;
     fs_stat_refused := fun _ => false;
     fs_write := fun _ _ => None;
     fs_print := fun _ => true |}.

(** [client/src] holds one component, on which [stat] raises *)
Definition fs_stat_fails : FileSystem :=
  {| fs_exists := fun _ => false;
     fs_read := fun _ => None;
     fs_walk := fun top =>
       if String.eqb top "client/src"
       then [("client/src", [], ["broken.tsx"])]
       else [];
     fs_stat_size := fun _ => None;
     fs_can_write := fun _ => true;
     fs_read_failure := fun _ => CannotOpen;
     fs_stat_refused := fun _ => false;
     fs_write := fun _ _ => None;
     fs_print := fun _ => true |}.

(** A finding with a severity outside the three buckets *)
Definition urgent_issue : Issue :=
  dict [("file", "server/routes.ts");
        ("issue", "Rate limiting missing");
        ("severity", "URGENT");
        ("description", "No rate limiting on the login endpoint");
        ("fix", "Add a rate limiter")].

(** [server/routes.ts] serves the dashboard metrics, compressed *)
Definition fs_metrics : FileSystem :=
  {| fs_exists := fun p => String.eqb p "server/routes.ts";
     fs_read := fun p =>
       if String.eqb p "server/routes.ts"
       then Some "app.use(compression()); app.get('/api/dashboard/metrics', metrics);"
       else None;
     fs_walk := fun _ => [];
     fs_stat_size := fun _ => None;
     fs_can_write := fun _ => true;
     fs_read_failure := fun _ => CannotOpen;
     fs_stat_refused := fun _ => false;
     fs_write := fun _ _ => None;
     fs_print := fun _ => true |}.

End Phase2Examples.

(** ** Vocabulary of the further properties *)

Module MoreFacts.
Import SystemDebug SystemDebugFacts.

(** The issues of type [t], in the order of the list *)
Definition of_type (t : string) (l : list Issue) : list Issue :=
  filter (fun x : Issue => x !! "type" = Some t) l.

(** The type and the category with which each analysis builds its
    issues *)
Definition type_category_pairs : list (string * string) :=
  [("critical", "database_schema");
   ("data_accuracy", "date_consistency");
   ("functionality", "client_management");
   ("ui_consistency", "component_loading");
   ("feature_removal", "commission_system")].

(** A well-formed issue of type [t] and category [c] *)
Definition tagged (t c : string) (x : Issue) : bool :=
  well_formed x
  && bool_decide (x !! "type" = Some t)
  && bool_decide (x !! "category" = Some c).

(** The paths the five analyses look for under [root], in the order of
    the scan *)
Definition scanned_paths (root : string) : list string :=
  [os_path_join (os_path_join root "server") "storage.ts"]
  ++ map (os_path_join root) performance_files
  ++ [os_path_join (os_path_join root "server") "routes.ts"]
  ++ [os_path_join (os_path_join (os_path_join root "client") "src") "App.tsx"]
  ++ map (os_path_join root) files_to_check.

(** The exception [e] was raised by reading one of [paths], found to
    exist: the [OSError] of [open], or the [UnicodeDecodeError] of
    [read] *)
Definition unreadable (fs : FileSystem) (paths : list string) (e : exn) : Prop :=
  exists p,
    In p paths /\ fs_exists fs p = true /\ fs_read fs p = None /\
    (e = OSError p \/ e = UnicodeDecodeError p).

(** The lines the [for step in ...] loop adds to the report *)
Fixpoint steps_text (steps : list string) : string :=
  match steps with
  | [] => ""
  | step :: rest => "- " +:+ step +:+ PyStr.nl +:+ steps_text rest
  end.

(** The text one pass of the [for fix in fixes] loop adds to the report *)
Definition fix_text (f : Fix) : result string :=
  let! section := fix_section f in
  Ok (section +:+ steps_text (implementation_steps f) +:+ PyStr.nl).

(** The performance file [p] under [root] exists and mentions October *)
Definition date_match (fs : FileSystem) (root p : string) : bool :=
  fs_exists fs (os_path_join root p) &&
  match fs_read fs (os_path_join root p) with
  | Some content =>
      PyStr.contains "month=10" content || PyStr.contains "October" content
  | None => false
  end.

(** The number of places of [s] at which [sub] occurs *)
Fixpoint occurrences (sub s : string) : Z :=
  (if String.prefix sub s then 1 else 0) +
  match s with
  | "" => 0
  | String _ s' => occurrences sub s'
  end.

(** No occurrence of [sub] starts at any of the first [k] places of [s] *)
Fixpoint none_within (sub : string) (k : nat) (s : string) : bool :=
  match k, s with
  | S k', String _ s' => negb (String.prefix sub s) && none_within sub k' s'
  | _, _ => true
  end.

(** A tree in which every analysis of the system-debug script finds
    something *)
Definition fs_everything : FileSystem :=
  {| fs_exists := fun _ => true;
     fs_read := fun _ =>
       Some "import App; const P = lazy(load); // monthly_target commission October DELETE /api/clients";
     fs_walk := fun _ => [];
     fs_stat_size := fun _ => None;
     fs_can_write := fun _ => true;
     fs_read_failure := fun _ => CannotOpen;
     fs_stat_refused := fun _ => false;
     fs_write := fun _ _ => None;
     fs_print := fun _ => true |}.

(** A tree whose storage file exists and cannot be read *)
Definition fs_locked : FileSystem :=
  {| fs_exists := fun p => String.eqb p "./server/storage.ts";
     fs_read := fun _ => None;
     fs_walk := fun _ => [];
     fs_stat_size := fun _ => None;
     fs_can_write := fun _ => true;
     fs_read_failure := fun _ => CannotOpen;
     fs_stat_refused := fun _ => false;
     fs_write := fun _ _ => None;
     fs_print := fun _ => true |}.

(** The files and directories of a project in which every analysis of
    the system-debug script finds something; a directory cannot be
    opened as a file *)
Definition fs_project : FileSystem :=
  {| fs_exists := fun p =>
       existsb (String.eqb p)
         (scanned_paths "." ++ ["."; "./server"; "./client"; "./client/src"]);
     fs_read := fun p =>
       if existsb (String.eqb p) (scanned_paths ".")
       then Some "import App; const P = lazy(load); // monthly_target commission October DELETE /api/clients"
       else None;
     fs_walk := fun _ => [];
     fs_stat_size := fun _ => None;
     fs_can_write := fun _ => true;
     fs_read_failure := fun _ => CannotOpen;
     fs_stat_refused := fun _ => false;
     fs_write := fun _ _ => None;
     fs_print := fun _ => true |}.

(** A tree whose routes file is not text *)
Definition fs_binary : FileSystem :=
  {| fs_exists := fun p => String.eqb p "./server/routes.ts";
     fs_read := fun _ => None;
     fs_walk := fun _ => [];
     fs_stat_size := fun _ => None;
     fs_can_write := fun _ => true;
     fs_read_failure := fun _ => CannotDecode;
     fs_stat_refused := fun _ => false;
     fs_write := fun _ _ => None;
     fs_print := fun _ => true |}.

(** What an analysis of the system-debug script may return: at most [n]
    issues, all well formed, of type [t] and category [c]; or the
    exception of a file among [paths] that exists and cannot be read *)
Definition analysis_outcome (fs : FileSystem) (paths : list string)
    (t c : string) (n : nat) (r : result (list Issue)) : Prop :=
  match r with
  | Ok l => Forall (fun x => tagged t c x = true) l /\ (length l <= n)%nat
  | Raise e => unreadable fs paths e
  end.

(** Some pair of the table tags the issue *)
Definition paired (x : Issue) : bool :=
  existsb (fun tc => tagged (fst tc) (snd tc) x) type_category_pairs.

Definition capitals_text : string :=
  "SELECT COMMISSION; DELETE /api/clients; -- ON FOREIGN KEY VIOLATION".

(** A tree whose files are written in capitals *)
Definition fs_capitals : FileSystem :=
  {| fs_exists := fun _ => true;
     fs_read := fun _ => Some capitals_text;
     fs_walk := fun _ => [];
     fs_stat_size := fun _ => None;
     fs_can_write := fun _ => true;
     fs_read_failure := fun _ => CannotOpen;
     fs_stat_refused := fun _ => false;
     fs_write := fun _ _ => None;
     fs_print := fun _ => true |}.

End MoreFacts.

Module Phase2MoreFacts.
Import PathLib Phase2 Phase2Facts MoreFacts.

(** What the image analysis may add for one component: nothing, the
    eager-loading finding or the missing-strategy finding *)
Definition image_findings_for (component_path : string) (found : list Issue) : Prop :=
  found = [] \/ found = [eager_issue component_path]
  \/ found = [no_loading_issue component_path].

(** The severity of the issue is one of [levels] *)
Definition severity_in (levels : list string) (x : Issue) : bool :=
  match x !! "severity" with
  | Some s => existsb (String.eqb s) levels
  | None => false
  end.

(** The files the six analyses look for by name, in the order of the
    scan *)
Definition named_files : list string :=
  ["server/routes.ts"] ++ image_components ++ ["client/src/App.tsx"]
  ++ critical_components ++ ["server/index.ts"; "client/src/main.tsx"].

(** The same under the root of the analyzer, as the scripts spell them *)
Definition named_paths (self : Phase2Analyzer) : list string :=
  map (fun name => str (truediv (repo_path self) name)) named_files.

(** The exception [e] was raised on one of [paths]: by [Path.exists],
    the answer being refused, or by reading the file, found to exist *)
Definition path_failure (fs : FileSystem) (paths : list string) (e : exn) : Prop :=
  exists p,
    In p paths /\
    ((fs_exists fs p = false /\ fs_stat_refused fs p = true /\ e = OSError p) \/
     (fs_exists fs p = true /\ fs_read fs p = None /\
      (e = OSError p \/ e = UnicodeDecodeError p))).



(** What an analysis of the phase-2 script may return: at most [n]
    issues, all of a severity of [levels] and without category; or an
    exception raised on one of [paths] *)
Definition phase2_outcome (fs : FileSystem) (paths : list string)
    (levels : list string) (n : nat) (r : result (list Issue)) : Prop :=
  match r with
  | Ok l =>
      Forall (fun x => emitted x && severity_in levels x = true) l
      /\ (length l <= n)%nat
  | Raise e => path_failure fs paths e
  end.

(** The component [c] was found by the walk: a TypeScript file of a
    walked directory, of the size recorded, named relative to the
    repository *)
Definition from_walk (self : Phase2Analyzer) (fs : FileSystem)
    (walk : list (string * list string * list string)) (c : LargeComponent) : Prop :=
  exists root dirs files file rel,
    In (root, dirs, files) walk /\ In file files /\
    PyStr.endswith file ".tsx" || PyStr.endswith file ".ts" = true /\
    fs_stat_size fs (str (truediv (parse root) file)) = Some (lc_size c) /\
    relative_to (truediv (parse root) file) (repo_path self) = Ok rel /\
    lc_file c = str rel.

(** A tree with one inventory component, whose image is loaded eagerly,
    and a server index without monitoring *)
Definition fs_images : FileSystem :=
  {| fs_exists := fun p =>
       String.eqb p "client/src/components/inventory-table.tsx"
       || String.eqb p "server/index.ts";
     fs_read := fun p =>
       if String.eqb p "server/index.ts" then Some "app.listen(5000)"
       else Some ("<img src=photo loading=" +:+ PyStr.dq +:+ "eager" +:+ PyStr.dq +:+ ">");
     fs_walk := fun _ => [];
     fs_stat_size := fun _ => None;
     fs_can_write := fun _ => true;
     fs_read_failure := fun _ => CannotOpen;
     fs_stat_refused := fun _ => false;
     fs_write := fun _ _ => None;
     fs_print := fun _ => true |}.




End Phase2MoreFacts.

(** * Properties *)

(** ** The result monad *)

Lemma bind_Ok {A B} (r : result A) (k : A -> result B) (b : B) :
  bind r k = Ok b -> exists a, r = Ok a /\ k a = Ok b.
Proof. destruct r as [a|e]; simpl; [eauto | discriminate]. Qed.

Lemma mapM_length {A B} (f : A -> result B) (l : list A) (ys : list B) :
  mapM f l = Ok ys -> length ys = length l.
Proof.
  revert ys. induction l as [|x l IH]; simpl; intros ys H.
  - injection H as <-. reflexivity.
  - apply bind_Ok in H as (y & _ & H).
    apply bind_Ok in H as (ys' & Hys & H).
    injection H as <-. simpl. f_equal. auto.
Qed.

Lemma mapM_Forall2 {A B} (f : A -> result B) (l : list A) (ys : list B) :
  mapM f l = Ok ys -> Forall2 (fun x y => f x = Ok y) l ys.
Proof.
  revert ys. induction l as [|x l IH]; simpl; intros ys H.
  - injection H as <-. constructor.
  - apply bind_Ok in H as (y & Hy & H).
    apply bind_Ok in H as (ys' & Hys & H).
    injection H as <-. constructor; auto.
Qed.

Lemma mapM_total {A B} (f : A -> result B) (l : list A) :
  Forall (fun x => is_ok (f x) = true) l -> exists ys, mapM f l = Ok ys.
Proof.
  induction 1 as [|x l Hx _ [ys IH]]; simpl; [eauto|].
  destruct (f x) as [y|]; [|discriminate]. simpl. rewrite IH. simpl. eauto.
Qed.

Lemma mapM_ext_map {A A' B} (f : A -> result B) (f' : A' -> result B)
    (g : A -> A') (l : list A) :
  (forall x, f' (g x) = f x) -> mapM f' (map g l) = mapM f l.
Proof.
  intros Hg. induction l as [|x l IH]; simpl; [reflexivity|].
  rewrite Hg, IH. reflexivity.
Qed.

(** ** The stable sort *)

Section SortFacts.
Context {A : Type}.
Implicit Types (x : nat * A) (l : list (nat * A)).

Lemma insert_by_key_perm x l : insert_by_key x l ≡ₚ x :: l.
Proof.
  induction l as [|y l IH]; simpl; [reflexivity|].
  destruct (fst y <? fst x)%nat; [|reflexivity].
  rewrite IH. apply Permutation_swap.
Qed.

Lemma stable_sort_perm l : stable_sort l ≡ₚ l.
Proof.
  induction l as [|x l IH]; simpl; [reflexivity|].
  rewrite insert_by_key_perm, IH. reflexivity.
Qed.

Lemma stable_sort_length l : length (stable_sort l) = length l.
Proof. apply Permutation_length, stable_sort_perm. Qed.

Lemma insert_by_key_sorted x l :
  StronglySorted key_le l -> StronglySorted key_le (insert_by_key x l).
Proof.
  induction 1 as [|y l Hl IH Hy]; simpl.
  - repeat constructor.
  - destruct (Nat.ltb_spec (fst y) (fst x)) as [Hlt|Hge].
    + constructor; [exact IH|].
      rewrite insert_by_key_perm. constructor; [unfold key_le; lia | exact Hy].
    + constructor; [constructor; assumption|].
      constructor; [exact Hge|].
      eapply Forall_impl; [exact Hy|]. unfold key_le. intros; simpl in *; lia.
Qed.

Lemma stable_sort_sorted l : StronglySorted key_le (stable_sort l).
Proof.
  induction l as [|x l IH]; simpl; [constructor|].
  apply insert_by_key_sorted, IH.
Qed.

(** Elements of one key keep their relative order: inserting [x] moves
    it only past strictly smaller keys. *)
Lemma insert_by_key_filter (k : nat) x l :
  filter (fun p => fst p = k) (insert_by_key x l)
  = filter (fun p => fst p = k) (x :: l).
Proof.
  induction l as [|y l IH]; simpl; [reflexivity|].
  destruct (Nat.ltb_spec (fst y) (fst x)) as [Hlt|Hge]; [|reflexivity].
  rewrite !filter_cons in *.
  destruct (decide (fst y = k)) as [Hy|Hy]; destruct (decide (fst x = k)) as [Hx|Hx];
    try lia; rewrite IH; reflexivity.
Qed.

Lemma stable_sort_filter (k : nat) l :
  filter (fun p => fst p = k) (stable_sort l) = filter (fun p => fst p = k) l.
Proof.
  induction l as [|x l IH]; simpl; [reflexivity|].
  rewrite insert_by_key_filter, !filter_cons, IH. reflexivity.
Qed.
End SortFacts.

(** The sort looks at the keys only: relabelling the payload commutes
    with it. *)
Lemma insert_by_key_map {A B} (g : A -> B) (x : nat * A) (l : list (nat * A)) :
  insert_by_key (prod_map id g x) (map (prod_map id g) l)
  = map (prod_map id g) (insert_by_key x l).
Proof.
  induction l as [|y l IH]; simpl; [reflexivity|].
  destruct (fst y <? fst x)%nat; simpl; [rewrite IH|]; reflexivity.
Qed.

Lemma stable_sort_map {A B} (g : A -> B) (l : list (nat * A)) :
  stable_sort (map (prod_map id g) l) = map (prod_map id g) (stable_sort l).
Proof.
  induction l as [|x l IH]; simpl; [reflexivity|].
  rewrite IH. apply insert_by_key_map.
Qed.

Lemma stable_sort_id {A} (l : list (nat * A)) :
  StronglySorted key_le l -> stable_sort l = l.
Proof.
  induction 1 as [|x l Hl IH Hx]; simpl; [reflexivity|].
  rewrite IH. destruct Hx as [|y l' Hy _]; simpl; [reflexivity|].
  unfold key_le in Hy.
  destruct (Nat.ltb_spec (fst y) (fst x)); [lia | reflexivity].
Qed.

Lemma combine_fst_snd {A B} (l : list (A * B)) :
  combine (map fst l) (map snd l) = l.
Proof. induction l as [|[a b] l IH]; simpl; congruence. Qed.

Lemma combine_snd {A B} (ks : list A) (l : list B) :
  length ks = length l -> map snd (combine ks l) = l.
Proof.
  revert l. induction ks as [|k ks IH]; intros [|x l]; simpl; intros H;
    try discriminate; [reflexivity|]. f_equal. apply IH. lia.
Qed.

Lemma combine_fst {A B} (ks : list A) (l : list B) :
  length ks = length l -> map fst (combine ks l) = ks.
Proof.
  revert l. induction ks as [|k ks IH]; intros [|x l]; simpl; intros H;
    try discriminate; [reflexivity|]. f_equal. apply IH. lia.
Qed.

(** What [sorted] returns: the payloads of the stably sorted keyed list *)
Lemma sorted_inv {A} (key : A -> result nat) (l out : list A) :
  sorted key l = Ok out ->
  exists keys,
    mapM key l = Ok keys /\ length keys = length l /\
    out = map snd (stable_sort (combine keys l)).
Proof.
  unfold sorted. intros H. apply bind_Ok in H as (keys & Hkeys & H).
  injection H as <-. exists keys. split; [exact Hkeys|].
  split; [eapply mapM_length; eauto | reflexivity].
Qed.

Lemma keyed_combine {A} (key : A -> result nat) (l : list A) (keys : list nat) :
  mapM key l = Ok keys ->
  Forall (fun p => key (snd p) = Ok (fst p)) (combine keys l).
Proof.
  intros H. apply mapM_Forall2 in H.
  induction H; simpl; constructor; auto.
Qed.

Lemma sorted_perm {A} (key : A -> result nat) (l out : list A) :
  sorted key l = Ok out -> out ≡ₚ l.
Proof.
  intros (keys & Hk & Hlen & ->)%sorted_inv.
  rewrite stable_sort_perm, combine_snd; [reflexivity | exact Hlen].
Qed.

Lemma sorted_total {A} (key : A -> result nat) (l : list A) :
  Forall (fun x => is_ok (key x) = true) l -> exists out, sorted key l = Ok out.
Proof.
  intros H. apply mapM_total in H as [keys H].
  unfold sorted. rewrite H. simpl. eauto.
Qed.

Lemma mapM_keyed {A} (key : A -> result nat) (keyed : list (nat * A)) :
  Forall (fun p => key (snd p) = Ok (fst p)) keyed ->
  mapM key (map snd keyed) = Ok (map fst keyed).
Proof.
  induction 1 as [|p keyed Hp _ IH]; simpl; [reflexivity|].
  rewrite Hp. simpl. rewrite IH. reflexivity.
Qed.

(** Sorting what is already sorted changes nothing. *)
Lemma sorted_idempotent {A} (key : A -> result nat) (l out : list A) :
  sorted key l = Ok out -> sorted key out = Ok out.
Proof.
  intros (keys & Hk & Hlen & ->)%sorted_inv.
  set (keyed := stable_sort (combine keys l)).
  assert (Hkeyed : Forall (fun p => key (snd p) = Ok (fst p)) keyed).
  { unfold keyed. rewrite stable_sort_perm. eapply keyed_combine; eauto. }
  unfold sorted. rewrite (mapM_keyed _ _ Hkeyed). simpl.
  rewrite combine_fst_snd, stable_sort_id; [reflexivity|].
  apply stable_sort_sorted.
Qed.

(** ** Filters *)

Lemma filter_by_key {A} (P : A -> Prop) `{forall x, Decision (P x)}
    (k : nat) (keyed : list (nat * A)) :
  Forall (fun p => P (snd p) <-> fst p = k) keyed ->
  filter P (map snd keyed) = map snd (filter (fun p => fst p = k) keyed).
Proof.
  induction 1 as [|p keyed Hp _ IH]; simpl; [reflexivity|].
  rewrite !filter_cons, IH.
  destruct (decide (P (snd p))) as [HP|HP], (decide (fst p = k)) as [Hk|Hk];
    simpl; tauto.
Qed.

Lemma filter_none {A} (P : A -> Prop) `{forall x, Decision (P x)} (l : list A) :
  Forall (fun x => ~ P x) l -> filter P l = [].
Proof.
  induction 1 as [|x l Hx _ IH]; simpl; [reflexivity|].
  rewrite filter_cons. destruct (decide (P x)); [tauto | exact IH].
Qed.

(** ** [SystemDebugAnalyzer]: the object is only read *)

Module SystemDebugProofs.
Import SystemDebug SystemDebugFacts.

Lemma rorp_ret {A} (a : A) : reads_only_repo_path (ret a).
Proof. split; reflexivity. Qed.

Lemma rorp_lift {A} (r : result A) : reads_only_repo_path (lift r).
Proof. split; reflexivity. Qed.

Lemma rorp_self_repo_path : reads_only_repo_path self_repo_path.
Proof. split; [reflexivity|]. intros ?? H. simpl. rewrite H. reflexivity. Qed.

Lemma rorp_call {A B} (m : method A) (k : A -> method B) :
  reads_only_repo_path m -> (forall a, reads_only_repo_path (k a)) ->
  reads_only_repo_path (call m k).
Proof.
  intros [Hs Hf] Hk. split.
  - intros self. unfold call. specialize (Hs self).
    destruct (m self) as [[a|e] self']; simpl in *; subst; [apply Hk | reflexivity].
  - intros self self' Hrp. unfold call.
    pose proof (Hs self) as H1. pose proof (Hs self') as H2.
    pose proof (Hf self self' Hrp) as H3.
    destruct (m self) as [r1 s1], (m self') as [r2 s2]; simpl in *; subst.
    destruct r2; [apply Hk; assumption | reflexivity].
Qed.

(** A method of this kind is determined by its outcome. *)
Lemma rorp_run {A} (m : method A) self :
  reads_only_repo_path m -> m self = (fst (m self), self).
Proof. intros [Hs _]. rewrite <- (Hs self) at 3. apply surjective_pairing. Qed.

Lemma call_run {A B} (m : method A) (k : A -> method B) self :
  reads_only_repo_path m ->
  call m k self =
  match fst (m self) with
  | Ok a => k a self
  | Raise e => (Raise e, self)
  end.
Proof. intros Hm. unfold call. rewrite (rorp_run m self Hm). reflexivity. Qed.

Ltac rorp :=
  repeat first
    [ apply rorp_ret | apply rorp_lift | apply rorp_self_repo_path
    | apply rorp_call; [|intros ?]
    | match goal with
      | |- reads_only_repo_path (if ?b then _ else _) => destruct b
      | |- reads_only_repo_path (let _ := _ in _) => cbv zeta
      end
    | assumption ].

Section WithFileSystem.
Variable fs : FileSystem.

Lemma rorp_analyze_database_schema_errors :
  reads_only_repo_path (analyze_database_schema_errors fs).
Proof. unfold analyze_database_schema_errors. rorp. Qed.

Lemma rorp_date_loop files acc : reads_only_repo_path (date_loop fs files acc).
Proof.
  revert acc. induction files as [|f files IH]; intros acc; simpl; rorp; apply IH.
Qed.

Lemma rorp_analyze_client_deletion_errors :
  reads_only_repo_path (analyze_client_deletion_errors fs).
Proof. unfold analyze_client_deletion_errors. rorp. Qed.

Lemma rorp_analyze_ui_display_inconsistencies :
  reads_only_repo_path (analyze_ui_display_inconsistencies fs).
Proof. unfold analyze_ui_display_inconsistencies. rorp. Qed.

Lemma rorp_commission_loop files acc :
  reads_only_repo_path (commission_loop fs files acc).
Proof.
  revert acc. induction files as [|f files IH]; intros acc; simpl; rorp; apply IH.
Qed.

Lemma rorp_generate_fix_steps x : reads_only_repo_path (generate_fix_steps x).
Proof. unfold generate_fix_steps. rorp. Qed.

Lemma rorp_enumerate_loop l i acc : reads_only_repo_path (enumerate_loop i l acc).
Proof.
  revert i acc. induction l as [|x l IH]; intros i acc; simpl; rorp.
  apply IH.
Qed.

Lemma rorp_prioritize l : reads_only_repo_path (prioritize l).
Proof. unfold prioritize. rorp. apply rorp_enumerate_loop. Qed.

Lemma rorp_generate_systematic_fixes :
  reads_only_repo_path (generate_systematic_fixes fs).
Proof.
  unfold generate_systematic_fixes, analyze_date_inconsistencies,
    analyze_commission_system_removal.
  cbv zeta.
  apply rorp_call; [apply rorp_analyze_database_schema_errors | intros ?].
  apply rorp_call; [apply rorp_date_loop | intros ?].
  apply rorp_call; [apply rorp_analyze_client_deletion_errors | intros ?].
  apply rorp_call; [apply rorp_analyze_ui_display_inconsistencies | intros ?].
  apply rorp_call; [apply rorp_commission_loop | intros ?].
  apply rorp_prioritize.
Qed.

Lemma rorp_fixes_loop l report : reads_only_repo_path (fixes_loop l report).
Proof.
  revert report. induction l as [|x l IH]; intros report; simpl; rorp. apply IH.
Qed.

Lemma rorp_create_implementation_report now :
  reads_only_repo_path (create_implementation_report fs now).
Proof.
  unfold create_implementation_report.
  apply rorp_call; [apply rorp_generate_systematic_fixes | intros ?].
  cbv zeta. apply rorp_call; [apply rorp_fixes_loop | intros ?]. rorp.
Qed.
End WithFileSystem.

(** ** Lines 165-178: sorting and numbering *)

Lemma generate_fix_steps_run x self :
  generate_fix_steps x self = (fix_steps x, self).
Proof.
  unfold generate_fix_steps, fix_steps, call, lift, ret.
  destruct (getitem x "category"); reflexivity.
Qed.

Lemma enumerate_loop_run l i acc self :
  enumerate_loop i l acc self =
  (let! stepss := mapM fix_steps l in Ok (acc ++ numbered i l stepss), self).
Proof.
  revert i acc. induction l as [|x l IH]; intros i acc; simpl.
  - rewrite app_nil_r. reflexivity.
  - unfold call. rewrite generate_fix_steps_run.
    destruct (fix_steps x) as [steps|e]; simpl; [|reflexivity].
    rewrite IH. destruct (mapM fix_steps l) as [stepss|e]; simpl; [|reflexivity].
    rewrite <- app_assoc. reflexivity.
Qed.

Lemma prioritize_run l self :
  prioritize l self =
  (let! sorted_issues := sorted priority_key l in
   let! stepss := mapM fix_steps sorted_issues in
   Ok (numbered 1 sorted_issues stepss), self).
Proof.
  unfold prioritize, call, lift.
  destruct (sorted priority_key l) as [s|e]; simpl; [|reflexivity].
  apply enumerate_loop_run.
Qed.

Lemma numbered_issue i l stepss :
  length stepss = length l -> map issue (numbered i l stepss) = l.
Proof.
  revert i stepss. induction l as [|x l IH]; intros i [|s stepss] H;
    simpl in *; try discriminate; [reflexivity|]. f_equal. apply IH. lia.
Qed.

Lemma numbered_priority i l stepss :
  length stepss = length l ->
  map priority (numbered i l stepss) = seq i (length l).
Proof.
  revert i stepss. induction l as [|x l IH]; intros i [|s stepss] H;
    simpl in *; try discriminate; [reflexivity|]. f_equal. apply IH. lia.
Qed.

Lemma numbered_steps i l stepss :
  Forall2 (fun x steps => fix_steps x = Ok steps) l stepss ->
  Forall (fun f => fix_steps (issue f) = Ok (implementation_steps f))
         (numbered i l stepss).
Proof.
  intros H. revert i. induction H; intros i; simpl; constructor; auto.
Qed.

(** What a successful [prioritize] has built *)
Lemma prioritize_inv l self new_fixes :
  fst (prioritize l self) = Ok new_fixes ->
  sorted priority_key l = Ok (map issue new_fixes) /\
  map priority new_fixes = seq 1 (length l) /\
  length new_fixes = length l /\
  Forall (fun f => fix_steps (issue f) = Ok (implementation_steps f)) new_fixes.
Proof.
  rewrite prioritize_run. simpl. intros H.
  apply bind_Ok in H as (s & Hs & H).
  apply bind_Ok in H as (stepss & Hst & H). injection H as <-.
  pose proof (mapM_length _ _ _ Hst) as Hlen.
  pose proof (Permutation_length (sorted_perm _ _ _ Hs)) as Hlen'.
  rewrite numbered_issue, numbered_priority by exact Hlen.
  repeat split; try congruence.
  - rewrite <- (length_map priority), numbered_priority, length_seq by exact Hlen.
    exact Hlen'.
  - apply numbered_steps, mapM_Forall2, Hst.
Qed.

(** The five analyses feed one list to the sort. *)
Lemma generate_systematic_fixes_inv fs self new_fixes :
  fst (generate_systematic_fixes fs self) = Ok new_fixes ->
  exists l1 l2 l3 l4 l5,
    fst (analyze_database_schema_errors fs self) = Ok l1 /\
    fst (analyze_date_inconsistencies fs self) = Ok l2 /\
    fst (analyze_client_deletion_errors fs self) = Ok l3 /\
    fst (analyze_ui_display_inconsistencies fs self) = Ok l4 /\
    fst (analyze_commission_system_removal fs self) = Ok l5 /\
    fst (prioritize (l1 ++ l2 ++ l3 ++ l4 ++ l5) self) = Ok new_fixes.
Proof.
  unfold generate_systematic_fixes. cbv zeta.
  rewrite call_run by apply rorp_analyze_database_schema_errors.
  destruct (fst (analyze_database_schema_errors fs self)) as [l1|]; [|discriminate].
  rewrite call_run by apply rorp_date_loop.
  destruct (fst (analyze_date_inconsistencies fs self)) as [l2|]; [|discriminate].
  rewrite call_run by apply rorp_analyze_client_deletion_errors.
  destruct (fst (analyze_client_deletion_errors fs self)) as [l3|]; [|discriminate].
  rewrite call_run by apply rorp_analyze_ui_display_inconsistencies.
  destruct (fst (analyze_ui_display_inconsistencies fs self)) as [l4|]; [|discriminate].
  rewrite call_run by apply rorp_commission_loop.
  destruct (fst (analyze_commission_system_removal fs self)) as [l5|]; [|discriminate].
  intros H. exists l1, l2, l3, l4, l5. repeat split.
  simpl in H. rewrite <- !app_assoc in H. exact H.
Qed.

(** ** Positions in the priority table *)

Lemma list_index_lookup l t n : list_index l t = Ok n -> l !! n = Some t.
Proof.
  revert n. induction l as [|y l IH]; intros n; simpl; [discriminate|].
  destruct (String.eqb_spec y t) as [->|Hne].
  - intros [= <-]. reflexivity.
  - intros (i & Hi & [= <-])%bind_Ok. simpl. auto.
Qed.

Lemma priority_key_inv x n :
  priority_key x = Ok n ->
  exists t, x !! "type" = Some t /\ list_index priority_order t = Ok n.
Proof.
  unfold priority_key, getitem. destruct (x !! "type") as [t|]; simpl; [eauto|discriminate].
Qed.

Lemma priority_key_type x t :
  x !! "type" = Some t -> priority_key x = list_index priority_order t.
Proof. unfold priority_key, getitem. intros ->. reflexivity. Qed.

Lemma strongly_sorted_lookup {A} (keyed : list (nat * A)) i j p q :
  StronglySorted key_le keyed ->
  keyed !! i = Some p -> keyed !! j = Some q -> (i < j)%nat -> (fst p <= fst q)%nat.
Proof.
  intros Hs. revert i j p q.
  induction Hs as [|x l Hl IH Hx]; intros i j p q Hi Hj Hij.
  - discriminate.
  - destruct j as [|j]; [lia|]. destruct i as [|i]; simpl in *.
    + injection Hi as <-. rewrite Forall_forall in Hx.
      apply Hx. apply list_elem_of_lookup. eauto.
    + eapply IH; eauto. lia.
Qed.

(** The sort keeps issues of one type in the order it received them. *)
Lemma sorted_stable_by_type all_issues sorted_issues (t : string) :
  sorted priority_key all_issues = Ok sorted_issues ->
  filter (fun x : Issue => x !! "type" = Some t) sorted_issues
  = filter (fun x : Issue => x !! "type" = Some t) all_issues.
Proof.
  intros (keys & Hk & Hlen & ->)%sorted_inv.
  pose proof (keyed_combine _ _ _ Hk) as Hkeyed.
  destruct (list_index priority_order t) as [k|e] eqn:Ht.
  - assert (Hiff : forall keyed : list (nat * Issue),
               Forall (fun p => priority_key (snd p) = Ok (fst p)) keyed ->
               Forall (fun p => snd p !! "type" = Some t <-> fst p = k) keyed).
    { intros keyed Hf. eapply Forall_impl; [exact Hf|].
      intros [n x] Hx; cbn [fst snd] in *. split.
      - intros Hty. rewrite (priority_key_type _ _ Hty) in Hx. congruence.
      - intros ->. destruct (priority_key_inv _ _ Hx) as (t' & Ht' & Hn).
        apply list_index_lookup in Hn, Ht. congruence. }
    rewrite (filter_by_key _ k) by (apply Hiff; rewrite stable_sort_perm; exact Hkeyed).
    rewrite stable_sort_filter.
    rewrite <- (filter_by_key (fun x : Issue => x !! "type" = Some t))
      by (apply Hiff, Hkeyed).
    rewrite combine_snd by exact Hlen. reflexivity.
  - assert (Hno : forall keyed : list (nat * Issue),
               Forall (fun p => priority_key (snd p) = Ok (fst p)) keyed ->
               Forall (fun x : Issue => ~ x !! "type" = Some t) (map snd keyed)).
    { intros keyed Hf. rewrite Forall_map. eapply Forall_impl; [exact Hf|].
      intros [n x] Hx Hty; cbn [fst snd] in *.
      rewrite (priority_key_type _ _ Hty) in Hx. congruence. }
    rewrite !filter_none; [reflexivity | |].
    + rewrite <- (combine_snd keys all_issues Hlen). apply Hno, Hkeyed.
    + apply Hno. rewrite stable_sort_perm. exact Hkeyed.
Qed.

Lemma combine_map_r {A B C} (g : B -> C) (ks : list A) (l : list B) :
  combine ks (map g l) = map (prod_map id g) (combine ks l).
Proof.
  revert l. induction ks as [|k ks IH]; intros [|x l]; simpl; [reflexivity..|].
  rewrite IH. reflexivity.
Qed.

(** Whatever else changes in the issues, the sort moves them alike. *)
Lemma sorted_reads_type_only (g : Issue -> Issue) all_issues sorted_issues :
  (forall x, g x !! "type" = x !! "type") ->
  sorted priority_key all_issues = Ok sorted_issues ->
  sorted priority_key (map g all_issues) = Ok (map g sorted_issues).
Proof.
  intros Hg (keys & Hk & Hlen & ->)%sorted_inv.
  unfold sorted. rewrite (mapM_ext_map priority_key priority_key g).
  - rewrite Hk. simpl. rewrite combine_map_r, stable_sort_map, !map_map.
    reflexivity.
  - intros x. unfold priority_key, getitem. rewrite Hg. reflexivity.
Qed.

(** ** The order of the fix list *)

Lemma lookup_map {A B} (f : A -> B) (l : list A) i :
  map f l !! i = option_map f (l !! i).
Proof.
  revert i. induction l as [|x l IH]; intros [|i]; simpl; auto.
Qed.

Lemma run_commission :
  fst (generate_systematic_fixes Examples.fs_commission (__init__ "."))
  = Ok Outputs.commission_fixes.
Proof. reflexivity. Qed.

(** C1, as the specification words it, fails: the two commission
    findings have the same type, and the one for [server/storage.ts]
    is placed before the one for [server/routes.ts]. *)
Lemma full_key_order_counterexample :
  fst (generate_systematic_fixes Examples.fs_commission (__init__ "."))
  = Ok Outputs.commission_fixes /\
  map (fun f => (Spec.file_path (issue f), priority f)) Outputs.commission_fixes
  = [("server/storage.ts", 1%nat); ("server/routes.ts", 2%nat)] /\
  Spec.ordered_by_full_key Outputs.commission_fixes = false.
Proof. split; [exact run_commission|]. split; reflexivity. Qed.

(** Whenever the type of A ranks below the type of B, A has the smaller
    priority number. *)
Lemma priority_follows_rank fs self new_fixes A B ra rb :
  fst (generate_systematic_fixes fs self) = Ok new_fixes ->
  A ∈ new_fixes -> B ∈ new_fixes ->
  priority_key (issue A) = Ok ra -> priority_key (issue B) = Ok rb ->
  (ra < rb)%nat -> (priority A < priority B)%nat.
Proof.
  intros (l1 & l2 & l3 & l4 & l5 & _ & _ & _ & _ & _ & Hp)%generate_systematic_fixes_inv.
  apply prioritize_inv in Hp as (Hs & Hprio & _ & _).
  apply sorted_inv in Hs as (keys & Hk & Hlen & Hout).
  set (l := l1 ++ l2 ++ l3 ++ l4 ++ l5) in *.
  set (keyed := stable_sort (combine keys l)) in *.
  assert (Hkeyed : Forall (fun p => priority_key (snd p) = Ok (fst p)) keyed).
  { unfold keyed. rewrite stable_sort_perm. eapply keyed_combine; eauto. }
  assert (Hsorted : StronglySorted key_le keyed) by apply stable_sort_sorted.
  assert (Hat : forall F r i, new_fixes !! i = Some F ->
             priority_key (issue F) = Ok r ->
             priority F = S i /\ exists p, keyed !! i = Some p /\ fst p = r).
  { intros F r i Hi Hr. split.
    - assert (H1 : map priority new_fixes !! i = Some (priority F))
        by (rewrite lookup_map, Hi; reflexivity).
      rewrite Hprio in H1. apply lookup_seq in H1 as [-> _]. reflexivity.
    - assert (H2 : map issue new_fixes !! i = Some (issue F))
        by (rewrite lookup_map, Hi; reflexivity).
      rewrite Hout, lookup_map in H2.
      destruct (keyed !! i) as [p|] eqn:Hp; [|discriminate].
      injection H2 as H2. exists p. split; [reflexivity|].
      rewrite Forall_forall in Hkeyed.
      assert (Hin : p ∈ keyed) by (apply list_elem_of_lookup; eauto).
      apply Hkeyed in Hin. rewrite H2 in Hin. congruence. }
  intros [i Hi]%list_elem_of_lookup [j Hj]%list_elem_of_lookup Hra Hrb Hlt.
  destruct (Hat _ _ _ Hi Hra) as (-> & p & Hp & <-).
  destruct (Hat _ _ _ Hj Hrb) as (-> & q & Hq & <-).
  destruct (Nat.lt_trichotomy i j) as [Hij|[->|Hji]]; [lia| |].
  - rewrite Hp in Hq. injection Hq as ->. lia.
  - pose proof (strongly_sorted_lookup _ _ _ _ _ Hsorted Hq Hp Hji). lia.
Qed.

(** C7: in every produced fix list with N entries, the priority numbers
    are 1, 2, ..., N in this order: they start at 1 and have neither gaps
    nor repeats. *)
Theorem priorities_dense fs self new_fixes :
  fst (generate_systematic_fixes fs self) = Ok new_fixes ->
  map priority new_fixes = seq 1 (length new_fixes).
Proof.
  intros (l1 & l2 & l3 & l4 & l5 & _ & _ & _ & _ & _ & Hp)%generate_systematic_fixes_inv.
  apply prioritize_inv in Hp as (_ & Hprio & Hlen & _).
  rewrite Hprio, Hlen. reflexivity.
Qed.

Lemma priorities_dense_witness :
  fst (generate_systematic_fixes Examples.fs_commission (__init__ "."))
  = Ok Outputs.commission_fixes /\
  map priority Outputs.commission_fixes = [1; 2]%nat.
Proof.
  split; [exact run_commission|].
  apply (priorities_dense Examples.fs_commission (__init__ ".")
           Outputs.commission_fixes run_commission).
Defined.

(** ** The sort of line 168 *)

(** C10: the sort key of an issue is the position of its type in the
    five-entry priority table; issues of one type keep the order in
    which they were emitted; and changing anything but the type of the
    issues (file, title, ...) leaves the arrangement unchanged. *)
Theorem sort_reads_type_only_and_is_stable
    (all_issues sorted_issues : list Issue) :
  sorted priority_key all_issues = Ok sorted_issues ->
  length priority_order = 5%nat /\
  Forall (fun x : Issue =>
            exists t n, x !! "type" = Some t /\ priority_key x = Ok n /\
                        priority_order !! n = Some t) all_issues /\
  (forall t : string,
      filter (fun x : Issue => x !! "type" = Some t) sorted_issues
      = filter (fun x : Issue => x !! "type" = Some t) all_issues) /\
  (forall g : Issue -> Issue,
      (forall x, g x !! "type" = x !! "type") ->
      sorted priority_key (map g all_issues) = Ok (map g sorted_issues)).
Proof.
  intros Hs. split; [reflexivity|]. split; [|split].
  - destruct (sorted_inv _ _ _ Hs) as (keys & Hk & _ & _).
    apply mapM_Forall2 in Hk. clear Hs.
    induction Hk as [|x n l keys Hx _ IH]; constructor; [|exact IH].
    destruct (priority_key_inv _ _ Hx) as (t & Ht & Hn).
    exists t, n. auto using list_index_lookup.
  - intros t. apply sorted_stable_by_type, Hs.
  - intros g Hg. apply sorted_reads_type_only; assumption.
Qed.

Lemma sort_reads_type_only_and_is_stable_witness :
  sorted priority_key Outputs.mixed_issues = Ok Outputs.mixed_sorted /\
  filter (fun x : Issue => x !! "type" = Some "feature_removal") Outputs.mixed_sorted
  = filter (fun x : Issue => x !! "type" = Some "feature_removal") Outputs.mixed_issues.
Proof.
  assert (H : sorted priority_key Outputs.mixed_issues = Ok Outputs.mixed_sorted)
    by reflexivity.
  split; [exact H|].
  apply (sort_reads_type_only_and_is_stable _ _ H).
Defined.

(** ** Running twice *)

Lemma numbered_rebuild i (l : list Fix) :
  map priority l = seq i (length l) ->
  numbered i (map issue l) (map implementation_steps l) = l.
Proof.
  revert i. induction l as [|[p x s] l IH]; intros i H; simpl in *; [reflexivity|].
  injection H as -> H. f_equal. apply IH, H.
Qed.

Lemma mapM_fix_steps (l : list Fix) :
  Forall (fun f => fix_steps (issue f) = Ok (implementation_steps f)) l ->
  mapM fix_steps (map issue l) = Ok (map implementation_steps l).
Proof.
  induction 1 as [|f l Hf _ IH]; simpl; [reflexivity|].
  rewrite Hf. simpl. rewrite IH. reflexivity.
Qed.

(** C9: prioritisation carries nothing from one run to the next.  A run
    leaves the object as it found it, a second run returns what the
    first returned, the attributes [issues] and [fixes] of the object
    do not influence the result, and prioritising the issues of an
    already prioritised list returns that very list, priority numbers
    included. *)
Theorem prioritize_is_idempotent_and_stateless fs self :
  snd (generate_systematic_fixes fs self) = self /\
  generate_systematic_fixes fs (snd (generate_systematic_fixes fs self))
  = generate_systematic_fixes fs self /\
  (forall self', repo_path self' = repo_path self ->
     fst (generate_systematic_fixes fs self')
     = fst (generate_systematic_fixes fs self)) /\
  (forall all_issues new_fixes,
     fst (prioritize all_issues self) = Ok new_fixes ->
     prioritize (map issue new_fixes) self = (Ok new_fixes, self)).
Proof.
  destruct (rorp_generate_systematic_fixes fs) as [Hs Hf].
  split; [apply Hs|]. split; [rewrite Hs; reflexivity|].
  split; [intros self' H; apply Hf, H|].
  intros all_issues new_fixes Hp.
  apply prioritize_inv in Hp as (Hsort & Hprio & Hlen & Hsteps).
  rewrite prioritize_run.
  rewrite (sorted_idempotent _ _ _ Hsort). simpl.
  rewrite (mapM_fix_steps _ Hsteps). simpl.
  rewrite numbered_rebuild; [reflexivity|]. rewrite Hprio, Hlen. reflexivity.
Qed.

Lemma prioritize_is_idempotent_and_stateless_witness :
  let self := __init__ "." in
  prioritize (map issue Outputs.commission_fixes) self
  = (Ok Outputs.commission_fixes, self).
Proof.
  intros self.
  apply (prioritize_is_idempotent_and_stateless Examples.fs_commission self)
    with (all_issues := [commission_issue "server/storage.ts";
                         commission_issue "server/routes.ts"]).
  reflexivity.
Defined.

(** ** Implementation steps *)

Lemma steps_for_category_dispatch category :
  steps_for_category category = Spec.dispatch_steps category.
Proof.
  unfold steps_for_category, Spec.dispatch_steps, Spec.step_templates.
  destruct (String.eqb_spec category "database_schema") as [->|H1]; [reflexivity|].
  destruct (String.eqb_spec category "date_consistency") as [->|H2]; [reflexivity|].
  destruct (String.eqb_spec category "client_management") as [->|H3]; [reflexivity|].
  destruct (String.eqb_spec category "component_loading") as [->|H4]; [reflexivity|].
  destruct (String.eqb_spec category "commission_system") as [->|H5]; [reflexivity|].
  cbn [list_to_map foldr uncurry fst snd].
  rewrite !lookup_insert_ne by congruence. rewrite lookup_empty. reflexivity.
Qed.

(** C8: the implementation steps of every prioritised finding are those
    the category-to-steps table gives for its category, and a category
    that is not in the table gets the single step "Manual analysis
    required". *)
Theorem steps_dispatch_on_category :
  (forall x self,
      fst (generate_fix_steps x self)
      = (let! category := getitem x "category" in
         Ok (Spec.dispatch_steps category))) /\
  (forall category,
      Spec.step_templates !! category = None ->
      steps_for_category category = ["Manual analysis required"]) /\
  (forall fs self new_fixes,
      fst (generate_systematic_fixes fs self) = Ok new_fixes ->
      Forall (fun f =>
                exists category,
                  issue f !! "category" = Some category /\
                  implementation_steps f = Spec.dispatch_steps category)
             new_fixes).
Proof.
  split; [|split].
  - intros x self. rewrite generate_fix_steps_run. simpl. unfold fix_steps.
    destruct (getitem x "category"); simpl; [|reflexivity].
    rewrite steps_for_category_dispatch. reflexivity.
  - intros category H. rewrite steps_for_category_dispatch.
    unfold Spec.dispatch_steps. rewrite H. reflexivity.
  - intros fs self new_fixes
      (l1 & l2 & l3 & l4 & l5 & _ & _ & _ & _ & _ & Hp)%generate_systematic_fixes_inv.
    apply prioritize_inv in Hp as (_ & _ & _ & Hsteps).
    eapply Forall_impl; [exact Hsteps|]. intros f Hf. simpl in Hf.
    unfold fix_steps, getitem in Hf.
    destruct (issue f !! "category") as [category|]; [|discriminate].
    simpl in Hf. injection Hf as Hf. exists category. split; [reflexivity|].
    rewrite <- Hf. apply steps_for_category_dispatch.
Qed.

Lemma steps_dispatch_on_category_witness :
  steps_for_category "memory_leak" = ["Manual analysis required"] /\
  Forall (fun f =>
            exists category,
              issue f !! "category" = Some category /\
              implementation_steps f = Spec.dispatch_steps category)
         Outputs.commission_fixes.
Proof.
  destruct steps_dispatch_on_category as (_ & Hfallback & Hrun).
  split.
  - apply Hfallback. reflexivity.
  - apply (Hrun Examples.fs_commission (__init__ ".")). exact run_commission.
Defined.

(** ** What the analyses emit *)

Lemma date_issue_well_formed p : well_formed (date_issue p) = true.
Proof. reflexivity. Qed.

Lemma commission_issue_well_formed p : well_formed (commission_issue p) = true.
Proof. reflexivity. Qed.

Ltac run_method :=
  cbv [call self_repo_path lift ret]; cbn [fst snd];
  repeat match goal with
         | |- context [if ?b then _ else _] => destruct b
         | |- context [open_read ?fs ?p] => destruct (open_read fs p)
         end;
  cbn [fst snd].

Section Emitted.
Variable fs : FileSystem.

Lemma analyze_database_schema_errors_wf self l :
  fst (analyze_database_schema_errors fs self) = Ok l -> all_well_formed l.
Proof.
  unfold analyze_database_schema_errors. run_method;
    intros [= <-]; repeat constructor.
Qed.

Lemma date_loop_wf files acc self l :
  all_well_formed acc ->
  fst (date_loop fs files acc self) = Ok l -> all_well_formed l.
Proof.
  revert acc. induction files as [|f files IH]; intros acc Hacc; simpl.
  - intros [= <-]. exact Hacc.
  - cbv [call self_repo_path lift]. cbn [fst snd].
    destruct (fs_exists fs _); [|apply IH, Hacc].
    destruct (open_read fs _); [|discriminate].
    destruct (_ || _); apply IH; [|exact Hacc].
    apply Forall_app. split; [exact Hacc|].
    constructor; [apply date_issue_well_formed | constructor].
Qed.

Lemma analyze_client_deletion_errors_wf self l :
  fst (analyze_client_deletion_errors fs self) = Ok l -> all_well_formed l.
Proof.
  unfold analyze_client_deletion_errors. run_method;
    intros [= <-]; repeat constructor.
Qed.

Lemma analyze_ui_display_inconsistencies_wf self l :
  fst (analyze_ui_display_inconsistencies fs self) = Ok l -> all_well_formed l.
Proof.
  unfold analyze_ui_display_inconsistencies. run_method;
    intros [= <-]; repeat constructor.
Qed.

Lemma commission_loop_wf files acc self l :
  all_well_formed acc ->
  fst (commission_loop fs files acc self) = Ok l -> all_well_formed l.
Proof.
  revert acc. induction files as [|f files IH]; intros acc Hacc; simpl.
  - intros [= <-]. exact Hacc.
  - cbv [call self_repo_path lift]. cbn [fst snd].
    destruct (fs_exists fs _); [|apply IH, Hacc].
    destruct (open_read fs _); [|discriminate].
    destruct (PyStr.contains _ _); apply IH; [|exact Hacc].
    apply Forall_app. split; [exact Hacc|].
    constructor; [apply commission_issue_well_formed | constructor].
Qed.
End Emitted.

(** No analysis gives its issues a severity. *)
Section Severity.
Variable fs : FileSystem.

Let unrated (l : list Issue) : Prop := Forall (fun x => no_severity x = true) l.

Lemma analyze_database_schema_errors_unrated self l :
  fst (analyze_database_schema_errors fs self) = Ok l -> unrated l.
Proof.
  unfold analyze_database_schema_errors. run_method;
    intros [= <-]; repeat constructor.
Qed.

Lemma date_loop_unrated files acc self l :
  unrated acc -> fst (date_loop fs files acc self) = Ok l -> unrated l.
Proof.
  revert acc. induction files as [|f files IH]; intros acc Hacc; simpl.
  - intros [= <-]. exact Hacc.
  - cbv [call self_repo_path lift]. cbn [fst snd].
    destruct (fs_exists fs _); [|apply IH, Hacc].
    destruct (open_read fs _); [|discriminate].
    destruct (_ || _); apply IH; [|exact Hacc].
    apply Forall_app. split; [exact Hacc|]. repeat constructor.
Qed.

Lemma analyze_client_deletion_errors_unrated self l :
  fst (analyze_client_deletion_errors fs self) = Ok l -> unrated l.
Proof.
  unfold analyze_client_deletion_errors. run_method;
    intros [= <-]; repeat constructor.
Qed.

Lemma analyze_ui_display_inconsistencies_unrated self l :
  fst (analyze_ui_display_inconsistencies fs self) = Ok l -> unrated l.
Proof.
  unfold analyze_ui_display_inconsistencies. run_method;
    intros [= <-]; repeat constructor.
Qed.

Lemma commission_loop_unrated files acc self l :
  unrated acc -> fst (commission_loop fs files acc self) = Ok l -> unrated l.
Proof.
  revert acc. induction files as [|f files IH]; intros acc Hacc; simpl.
  - intros [= <-]. exact Hacc.
  - cbv [call self_repo_path lift]. cbn [fst snd].
    destruct (fs_exists fs _); [|apply IH, Hacc].
    destruct (open_read fs _); [|discriminate].
    destruct (PyStr.contains _ _); apply IH; [|exact Hacc].
    apply Forall_app. split; [exact Hacc|]. repeat constructor.
Qed.
End Severity.

(** The scan is its five analyses followed by the prioritisation. *)
Lemma generate_systematic_fixes_run fs self :
  fst (generate_systematic_fixes fs self)
  = (let! l1 := fst (analyze_database_schema_errors fs self) in
     let! l2 := fst (analyze_date_inconsistencies fs self) in
     let! l3 := fst (analyze_client_deletion_errors fs self) in
     let! l4 := fst (analyze_ui_display_inconsistencies fs self) in
     let! l5 := fst (analyze_commission_system_removal fs self) in
     fst (prioritize (l1 ++ l2 ++ l3 ++ l4 ++ l5) self)).
Proof.
  unfold generate_systematic_fixes. cbv zeta.
  rewrite call_run by apply rorp_analyze_database_schema_errors.
  destruct (fst (analyze_database_schema_errors fs self)) as [l1|]; [|reflexivity].
  rewrite call_run by apply rorp_date_loop.
  destruct (fst (analyze_date_inconsistencies fs self)) as [l2|]; [|reflexivity].
  rewrite call_run by apply rorp_analyze_client_deletion_errors.
  destruct (fst (analyze_client_deletion_errors fs self)) as [l3|]; [|reflexivity].
  rewrite call_run by apply rorp_analyze_ui_display_inconsistencies.
  destruct (fst (analyze_ui_display_inconsistencies fs self)) as [l4|]; [|reflexivity].
  rewrite call_run by apply rorp_commission_loop.
  destruct (fst (analyze_commission_system_removal fs self)) as [l5|]; [|reflexivity].
  cbn [bind]. rewrite <- !app_assoc. reflexivity.
Qed.

(** ** A completed scan always yields a report *)

Lemma well_formed_getitem x k :
  well_formed x = true -> In k issue_keys -> exists v, getitem x k = Ok v.
Proof.
  unfold well_formed. intros [Hkeys _]%andb_prop Hk.
  rewrite forallb_forall in Hkeys. specialize (Hkeys k Hk).
  unfold has_key in Hkeys. apply bool_decide_eq_true in Hkeys as [v Hv].
  exists v. unfold getitem. rewrite Hv. reflexivity.
Qed.

Lemma well_formed_key x : well_formed x = true -> is_ok (priority_key x) = true.
Proof. unfold well_formed. intros [_ H]%andb_prop. exact H. Qed.

Lemma well_formed_fix_steps x :
  well_formed x = true -> is_ok (fix_steps x) = true.
Proof.
  intros H. destruct (well_formed_getitem x "category" H) as [v Hv].
  { simpl. tauto. }
  unfold fix_steps. rewrite Hv. reflexivity.
Qed.

Lemma prioritize_total l self :
  all_well_formed l -> exists new_fixes, fst (prioritize l self) = Ok new_fixes.
Proof.
  intros Hwf. rewrite prioritize_run. cbn [fst].
  destruct (sorted_total priority_key l) as [s Hs].
  { eapply Forall_impl; [exact Hwf|]. apply well_formed_key. }
  rewrite Hs. simpl.
  destruct (mapM_total fix_steps s) as [stepss Hst].
  { rewrite (sorted_perm _ _ _ Hs).
    eapply Forall_impl; [exact Hwf|]. apply well_formed_fix_steps. }
  rewrite Hst. simpl. eauto.
Qed.

Lemma generate_systematic_fixes_wf fs self new_fixes :
  fst (generate_systematic_fixes fs self) = Ok new_fixes ->
  all_well_formed (map issue new_fixes).
Proof.
  intros (l1 & l2 & l3 & l4 & l5 & H1 & H2 & H3 & H4 & H5 & Hp)%generate_systematic_fixes_inv.
  apply prioritize_inv in Hp as (Hs & _).
  unfold all_well_formed. rewrite (sorted_perm _ _ _ Hs).
  rewrite !Forall_app. repeat split.
  - eapply analyze_database_schema_errors_wf; eauto.
  - eapply date_loop_wf; [|exact H2]. constructor.
  - eapply analyze_client_deletion_errors_wf; eauto.
  - eapply analyze_ui_display_inconsistencies_wf; eauto.
  - eapply commission_loop_wf; [|exact H5]. constructor.
Qed.

Lemma fix_section_total f :
  well_formed (issue f) = true -> exists section, fix_section f = Ok section.
Proof.
  intros H. unfold fix_section.
  destruct (well_formed_getitem _ "title" H) as [v1 ->]; [simpl; tauto|].
  destruct (well_formed_getitem _ "type" H) as [v2 ->]; [simpl; tauto|].
  destruct (well_formed_getitem _ "file" H) as [v3 ->]; [simpl; tauto|].
  destruct (well_formed_getitem _ "impact" H) as [v4 ->]; [simpl; tauto|].
  destruct (well_formed_getitem _ "description" H) as [v5 ->]; [simpl; tauto|].
  cbn [bind]. eauto.
Qed.

Lemma fixes_loop_total l report self :
  all_well_formed (map issue l) ->
  exists report', fst (fixes_loop l report self) = Ok report'.
Proof.
  revert report. induction l as [|f l IH]; intros report Hwf.
  - simpl. eauto.
  - apply Forall_cons in Hwf as [Hf Hl].
    destruct (fix_section_total f Hf) as [section Hsec].
    cbn [fixes_loop]. cbv [call lift]. rewrite Hsec. apply IH, Hl.
Qed.

(** Whoever obtained the fix list obtains the report. *)
Lemma report_after_scan fs now self new_fixes :
  fst (generate_systematic_fixes fs self) = Ok new_fixes ->
  exists report, fst (create_implementation_report fs now self) = Ok report.
Proof.
  intros Hrun. unfold create_implementation_report.
  rewrite call_run by apply rorp_generate_systematic_fixes. rewrite Hrun.
  rewrite call_run by apply rorp_fixes_loop.
  destruct (fixes_loop_total new_fixes
              (report_header (strftime now) (length new_fixes)) self)
    as [report Hrep].
  { eapply generate_systematic_fixes_wf, Hrun. }
  rewrite Hrep. cbn. eauto.
Qed.

(** ** The run as a whole *)














(** C5, as the specification words it, fails: the same tree scanned at
    09:05:59 and again one second later gives two different reports. *)
Lemma timestamp_counterexample :
  fst (SpecRuns.two_reports Examples.fs_commission
         Examples.monday_morning Examples.next_second (__init__ "."))
  <> snd (SpecRuns.two_reports Examples.fs_commission
            Examples.monday_morning Examples.next_second (__init__ ".")).
Proof. vm_compute. discriminate. Qed.

(** C5 (amended): for a fixed file set, two consecutive runs whose
    clock readings print as the same timestamp produce byte-identical
    reports. *)
Theorem reports_identical_within_a_second fs self t1 t2 :
  strftime t1 = strftime t2 ->
  snd (SpecRuns.two_reports fs t1 t2 self)
  = fst (SpecRuns.two_reports fs t1 t2 self).
Proof.
  intros H. unfold SpecRuns.two_reports.
  rewrite (rorp_run _ self (rorp_create_implementation_report fs t1)).
  rewrite (rorp_run _ self (rorp_create_implementation_report fs t2)).
  cbn [fst snd]. unfold create_implementation_report. rewrite H. reflexivity.
Qed.

Lemma reports_identical_within_a_second_witness :
  strftime Examples.monday_morning = strftime Examples.same_second /\
  snd (SpecRuns.two_reports Examples.fs_commission
         Examples.monday_morning Examples.same_second (__init__ "."))
  = fst (SpecRuns.two_reports Examples.fs_commission
           Examples.monday_morning Examples.same_second (__init__ ".")).
Proof.
  assert (H : strftime Examples.monday_morning = strftime Examples.same_second)
    by reflexivity.
  split; [exact H|].
  apply (reports_identical_within_a_second _ _ _ _ H).
Defined.

End SystemDebugProofs.

(** ** [Phase2Analyzer] *)

Module Phase2Proofs.
Import PathLib Phase2 Phase2Facts.

Example two_large_found :
  map lc_file (find_large_components (__init__ ".") Phase2Examples.fs_two_large)
  = ["client/src/App.tsx"; "client/src/pages/inventory.tsx"].
Proof. reflexivity. Qed.

Example two_large_description :
  (fun r => match r with
            | Ok [x] => x !! "description"
            | _ => None
            end)
    (analyze_bundle_size_optimization (__init__ ".") Phase2Examples.fs_two_large)
  = Some "Large components increase bundle size: client/src/App.tsx (19.53KB), client/src/pages/inventory.tsx (30.27KB)".
Proof. reflexivity. Qed.

Example stat_failure_run :
  generate_phase2_improvements (__init__ ".") Phase2Examples.fs_stat_fails
  = Ok {| high_priority := []; medium_priority := []; low_priority := [];
          total_issues := 0 |}.
Proof. reflexivity. Qed.

(** ** The walk over [client/src] *)

Section Walk.
Variable self : Phase2Analyzer.
Variable fs : FileSystem.






(** ** What the six analyses emit *)

Ltac branches :=
  cbv [path_read]; cbn [bind];
  repeat match goal with
         | |- context [path_exists ?fs ?p] => destruct (path_exists fs p) as [[|]|?]
         | |- context [if ?b then _ else _] => destruct b
         | |- context [open_read ?fs ?p] => destruct (open_read fs p)
         | |- context [bind _ _] => cbn [bind]
         end.

Ltac emitted_list :=
  intros [= <-];
  repeat first [ apply Forall_nil_2 | apply Forall_cons_2; [reflexivity|]
               | apply Forall_app_2 | assumption ].

Lemma analyze_dashboard_metrics_error_emitted l :
  analyze_dashboard_metrics_error self fs = Ok l -> all_emitted l.
Proof.
  unfold analyze_dashboard_metrics_error. branches;
    first [discriminate | emitted_list].
Qed.

Lemma image_loop_emitted components acc l :
  all_emitted acc -> image_loop self fs components acc = Ok l -> all_emitted l.
Proof.
  revert acc. induction components as [|c components IH]; intros acc Hacc; simpl.
  - emitted_list.
  - cbv [path_read].
    destruct (path_exists fs _) as [[|]|?]; cbn [bind];
      [|apply IH, Hacc|discriminate].
    destruct (open_read fs _); [|discriminate]. cbn [bind].
    apply IH.
    repeat match goal with
           | |- context [if ?b then _ else _] => destruct b
           end;
      repeat first [ apply Forall_app_2 | assumption
                   | apply Forall_cons_2; [reflexivity|] | apply Forall_nil_2 ].
Qed.

Lemma report_large_components_emitted lcs acc :
  all_emitted acc -> all_emitted (report_large_components lcs acc).
Proof.
  intros Hacc. destruct lcs; simpl; [exact Hacc|].
  apply Forall_app_2; [exact Hacc|].
  apply Forall_cons_2; [reflexivity | apply Forall_nil_2].
Qed.

Lemma analyze_bundle_size_optimization_emitted l :
  analyze_bundle_size_optimization self fs = Ok l -> all_emitted l.
Proof.
  unfold analyze_bundle_size_optimization. cbv zeta.
  pose proof (report_large_components_emitted
                (find_large_components self fs) [] (Forall_nil_2 _)) as H.
  revert H. generalize (report_large_components (find_large_components self fs) []).
  intros issues H. branches; first [discriminate | emitted_list].
Qed.

Lemma error_handling_loop_emitted components acc l :
  all_emitted acc ->
  error_handling_loop self fs components acc = Ok l -> all_emitted l.
Proof.
  revert acc. induction components as [|c components IH]; intros acc Hacc; simpl.
  - emitted_list.
  - cbv [path_read].
    destruct (path_exists fs _) as [[|]|?]; cbn [bind];
      [|apply IH, Hacc|discriminate].
    destruct (open_read fs _); [|discriminate]. cbn [bind].
    destruct (_ && _); apply IH; [|exact Hacc].
    apply Forall_app_2; [exact Hacc|].
    apply Forall_cons_2; [reflexivity | apply Forall_nil_2].
Qed.

Lemma analyze_performance_monitoring_gaps_emitted l :
  analyze_performance_monitoring_gaps self fs = Ok l -> all_emitted l.
Proof.
  unfold analyze_performance_monitoring_gaps. branches;
    first [discriminate | emitted_list].
Qed.

Lemma analyze_api_response_optimization_emitted l :
  analyze_api_response_optimization self fs = Ok l -> all_emitted l.
Proof.
  unfold analyze_api_response_optimization. branches;
    first [discriminate | emitted_list].
Qed.

Lemma collect_all_issues_emitted l :
  collect_all_issues self fs = Ok l -> all_emitted l.
Proof.
  unfold collect_all_issues. cbv zeta.
  intros (l1 & H1 & H)%bind_Ok. apply bind_Ok in H as (l2 & H2 & H).
  apply bind_Ok in H as (l3 & H3 & H). apply bind_Ok in H as (l4 & H4 & H).
  apply bind_Ok in H as (l5 & H5 & H). apply bind_Ok in H as (l6 & H6 & H).
  injection H as <-. unfold all_emitted. rewrite !Forall_app. repeat split.
  - apply analyze_dashboard_metrics_error_emitted, H1.
  - eapply image_loop_emitted; [|exact H2]. constructor.
  - apply analyze_bundle_size_optimization_emitted, H3.
  - eapply error_handling_loop_emitted; [|exact H4]. constructor.
  - apply analyze_performance_monitoring_gaps_emitted, H5.
  - apply analyze_api_response_optimization_emitted, H6.
Qed.
End Walk.

(** ** The severity buckets *)

Lemma with_severity_filter level l sel :
  with_severity level l = Ok sel ->
  sel = filter (fun x : Issue => x !! "severity" = Some level) l.
Proof.
  revert sel. induction l as [|x l IH]; simpl; intros sel H.
  - injection H as <-. reflexivity.
  - apply bind_Ok in H as (s & Hs & H). apply bind_Ok in H as (sel' & Hsel & H).
    injection H as <-. rewrite filter_cons, <- (IH _ Hsel).
    unfold getitem in Hs. destruct (x !! "severity") as [s'|]; [|discriminate].
    injection Hs as ->.
    destruct (String.eqb_spec s level) as [->|Hne].
    + rewrite decide_True by reflexivity. reflexivity.
    + rewrite decide_False by congruence. reflexivity.
Qed.

Lemma with_severity_total level l :
  is_ok (with_severity level l) = true
  <-> Forall (fun x : Issue => is_Some (x !! "severity")) l.
Proof.
  induction l as [|x l IH]; simpl.
  - split; [constructor | reflexivity].
  - rewrite Forall_cons, <- IH. unfold getitem.
    destruct (x !! "severity") as [s|]; simpl.
    + destruct (with_severity level l); simpl; split; eauto; tauto.
    + split; [discriminate | intros [[? ?] _]; discriminate].
Qed.

Lemma categorize_inv l imp :
  categorize l = Ok imp ->
  high_priority imp = filter (fun x : Issue => x !! "severity" = Some "HIGH") l /\
  medium_priority imp = filter (fun x : Issue => x !! "severity" = Some "MEDIUM") l /\
  low_priority imp = filter (fun x : Issue => x !! "severity" = Some "LOW") l /\
  total_issues imp = length l.
Proof.
  unfold categorize. intros (h & Hh & H)%bind_Ok.
  apply bind_Ok in H as (m & Hm & H). apply bind_Ok in H as (lo & Hlo & H).
  injection H as <-. cbn.
  rewrite <- (with_severity_filter _ _ _ Hh), <- (with_severity_filter _ _ _ Hm),
    <- (with_severity_filter _ _ _ Hlo). auto.
Qed.

Lemma categorize_total l :
  is_ok (categorize l) = true
  <-> Forall (fun x : Issue => is_Some (x !! "severity")) l.
Proof.
  unfold categorize. split.
  - intros H. apply (with_severity_total "HIGH").
    destruct (with_severity "HIGH" l); [reflexivity | discriminate].
  - intros H.
    pose proof (proj2 (with_severity_total "HIGH" l) H) as Hh.
    pose proof (proj2 (with_severity_total "MEDIUM" l) H) as Hm.
    pose proof (proj2 (with_severity_total "LOW" l) H) as Hl.
    destruct (with_severity "HIGH" l); [|discriminate].
    destruct (with_severity "MEDIUM" l); [|discriminate].
    destruct (with_severity "LOW" l); [|discriminate]. reflexivity.
Qed.

Lemma emitted_has_severity l :
  all_emitted l -> Forall (fun x : Issue => is_Some (x !! "severity")) l.
Proof.
  intros H. eapply Forall_impl; [exact H|]. intros x Hx. unfold emitted in Hx.
  apply andb_prop in Hx as [_ Hx]. destruct (x !! "severity"); [eauto | discriminate].
Qed.

Lemma emitted_partition l :
  all_emitted l ->
  length l
  = (length (filter (fun x : Issue => x !! "severity" = Some "HIGH") l)
     + length (filter (fun x : Issue => x !! "severity" = Some "MEDIUM") l)
     + length (filter (fun x : Issue => x !! "severity" = Some "LOW") l))%nat.
Proof.
  induction 1 as [|x l Hx _ IH]; [reflexivity|].
  rewrite !filter_cons. unfold emitted in Hx. apply andb_prop in Hx as [_ Hx].
  destruct (x !! "severity") as [s|]; [|discriminate].
  destruct (decide (s = "HIGH")) as [->|H1].
  { repeat case_decide; try congruence; simpl; lia. }
  destruct (decide (s = "MEDIUM")) as [->|H2].
  { repeat case_decide; try congruence; simpl; lia. }
  destruct (decide (s = "LOW")) as [->|H3].
  { repeat case_decide; try congruence; simpl; lia. }
  apply String.eqb_neq in H1, H2, H3. rewrite H1, H2, H3 in Hx. discriminate.
Qed.

Lemma emitted_unclassified l :
  all_emitted l -> Forall unclassified l.
Proof.
  intros H. eapply Forall_impl; [exact H|]. intros x Hx. unfold emitted in Hx.
  apply andb_prop in Hx as [Hc%bool_decide_eq_true Hx]. split; [exact Hc|].
  destruct (x !! "severity") as [s|]; [|discriminate].
  apply orb_prop in Hx as [Hx|Hx]; [apply orb_prop in Hx as [Hx|Hx]|];
    apply String.eqb_eq in Hx; subst s; auto.
Qed.

Lemma generate_systematic_fixes_unrated fs self new_fixes :
  fst (SystemDebug.generate_systematic_fixes fs self) = Ok new_fixes ->
  Forall (fun f => SystemDebug.issue f !! "severity" = None) new_fixes.
Proof.
  intros (l1 & l2 & l3 & l4 & l5 & H1 & H2 & H3 & H4 & H5 & Hp)
    %SystemDebugProofs.generate_systematic_fixes_inv.
  apply SystemDebugProofs.prioritize_inv in Hp as (Hs & _).
  apply Forall_map with (f := SystemDebug.issue)
                        (P := fun x : Issue => x !! "severity" = None).
  rewrite (sorted_perm _ _ _ Hs).
  eapply Forall_impl with (P := fun x => SystemDebugFacts.no_severity x = true);
    [|intros x Hx; exact (proj1 (bool_decide_eq_true _) Hx)].
  rewrite !Forall_app. repeat split.
  - eapply SystemDebugProofs.analyze_database_schema_errors_unrated; eauto.
  - eapply SystemDebugProofs.date_loop_unrated; [|exact H2]. constructor.
  - eapply SystemDebugProofs.analyze_client_deletion_errors_unrated; eauto.
  - eapply SystemDebugProofs.analyze_ui_display_inconsistencies_unrated; eauto.
  - eapply SystemDebugProofs.commission_loop_unrated; [|exact H5]. constructor.
Qed.

(** C3, as the specification words it, fails on what the two scripts
    themselves produce: the two findings of a system-debug run have no
    severity and are given none, and a phase-2 finding without category
    stays in the HIGH bucket, the MEDIUM bucket being empty. *)
Lemma missing_severity_counterexample :
  (exists new_fixes,
      fst (SystemDebug.generate_systematic_fixes Examples.fs_commission
             (SystemDebug.__init__ ".")) = Ok new_fixes /\
      length new_fixes = 2%nat /\
      Forall (fun f => SystemDebug.issue f !! "severity" = None /\
                       ~ normalized (SystemDebug.issue f)) new_fixes) /\
  (exists imp x,
      generate_phase2_improvements (__init__ ".") Phase2Examples.fs_metrics = Ok imp /\
      high_priority imp = [x] /\ medium_priority imp = [] /\
      x !! "category" = None /\ ~ normalized x).
Proof.
  split.
  - eexists. split; [exact SystemDebugProofs.run_commission|].
    split; [reflexivity|].
    repeat constructor; discriminate.
  - eexists _, _. split; [reflexivity|]. split; [reflexivity|].
    split; [reflexivity|]. split; [reflexivity | discriminate].
Qed.

(** C3 (amended): neither script normalises anything to MEDIUM.  Every
    finding of a fix list of the system-debug script has no severity
    key, the fixes' issues being the issues the five analyses emitted,
    reordered and otherwise unchanged; once the five analyses have
    returned, the prioritisation always completes.  The findings that
    the six phase-2 analyses emit have no category key and a severity
    among HIGH, MEDIUM and LOW; each bucket holds exactly the findings
    whose severity is that of the bucket, unchanged and in order,
    [total_issues] counts all findings, and once the six analyses have
    returned the bucketing always completes, the three buckets holding
    all findings. *)
Theorem severity_is_never_normalized :
  (forall fs self new_fixes,
      fst (SystemDebug.generate_systematic_fixes fs self) = Ok new_fixes ->
      Forall (fun f => SystemDebug.issue f !! "severity" = None) new_fixes /\
      exists l1 l2 l3 l4 l5,
        fst (SystemDebug.analyze_database_schema_errors fs self) = Ok l1 /\
        fst (SystemDebug.analyze_date_inconsistencies fs self) = Ok l2 /\
        fst (SystemDebug.analyze_client_deletion_errors fs self) = Ok l3 /\
        fst (SystemDebug.analyze_ui_display_inconsistencies fs self) = Ok l4 /\
        fst (SystemDebug.analyze_commission_system_removal fs self) = Ok l5 /\
        map SystemDebug.issue new_fixes ≡ₚ l1 ++ l2 ++ l3 ++ l4 ++ l5) /\
  (forall fs self l1 l2 l3 l4 l5,
      fst (SystemDebug.analyze_database_schema_errors fs self) = Ok l1 ->
      fst (SystemDebug.analyze_date_inconsistencies fs self) = Ok l2 ->
      fst (SystemDebug.analyze_client_deletion_errors fs self) = Ok l3 ->
      fst (SystemDebug.analyze_ui_display_inconsistencies fs self) = Ok l4 ->
      fst (SystemDebug.analyze_commission_system_removal fs self) = Ok l5 ->
      exists new_fixes,
        fst (SystemDebug.generate_systematic_fixes fs self) = Ok new_fixes) /\
  (forall self fs imp,
      generate_phase2_improvements self fs = Ok imp ->
      exists all_issues,
        collect_all_issues self fs = Ok all_issues /\
        Forall unclassified all_issues /\
        high_priority imp
        = filter (fun x : Issue => x !! "severity" = Some "HIGH") all_issues /\
        medium_priority imp
        = filter (fun x : Issue => x !! "severity" = Some "MEDIUM") all_issues /\
        low_priority imp
        = filter (fun x : Issue => x !! "severity" = Some "LOW") all_issues /\
        total_issues imp = length all_issues /\
        total_issues imp
        = (length (high_priority imp) + length (medium_priority imp)
           + length (low_priority imp))%nat) /\
  (forall self fs all_issues,
      collect_all_issues self fs = Ok all_issues ->
      exists imp, generate_phase2_improvements self fs = Ok imp).
Proof.
  split; [|split; [|split]].
  - intros fs self new_fixes Hrun.
    split; [exact (generate_systematic_fixes_unrated _ _ _ Hrun)|].
    apply SystemDebugProofs.generate_systematic_fixes_inv in Hrun
      as (l1 & l2 & l3 & l4 & l5 & H1 & H2 & H3 & H4 & H5 & Hp).
    apply SystemDebugProofs.prioritize_inv in Hp as (Hs & _).
    exists l1, l2, l3, l4, l5. repeat (split; [assumption|]).
    exact (sorted_perm _ _ _ Hs).
  - intros fs self l1 l2 l3 l4 l5 H1 H2 H3 H4 H5.
    rewrite SystemDebugProofs.generate_systematic_fixes_run, H1, H2, H3, H4, H5.
    cbn [bind]. apply SystemDebugProofs.prioritize_total.
    unfold SystemDebugFacts.all_well_formed. rewrite !Forall_app. repeat split.
    + eapply SystemDebugProofs.analyze_database_schema_errors_wf; eauto.
    + eapply SystemDebugProofs.date_loop_wf; [|exact H2]. constructor.
    + eapply SystemDebugProofs.analyze_client_deletion_errors_wf; eauto.
    + eapply SystemDebugProofs.analyze_ui_display_inconsistencies_wf; eauto.
    + eapply SystemDebugProofs.commission_loop_wf; [|exact H5]. constructor.
  - intros self fs imp. unfold generate_phase2_improvements.
    intros (all_issues & Hc & Hcat)%bind_Ok.
    pose proof (collect_all_issues_emitted _ _ _ Hc) as Hem.
    exists all_issues. split; [exact Hc|].
    split; [apply emitted_unclassified, Hem|].
    destruct (categorize_inv _ _ Hcat) as (Hh & Hm & Hl & Ht).
    repeat (split; [assumption|]).
    rewrite Hh, Hm, Hl, Ht. apply emitted_partition, Hem.
  - intros self fs all_issues Hc.
    pose proof (collect_all_issues_emitted _ _ _ Hc) as Hem.
    unfold generate_phase2_improvements. rewrite Hc. cbn [bind].
    pose proof (proj2 (categorize_total all_issues) (emitted_has_severity _ Hem)) as Hok.
    destruct (categorize all_issues) as [imp|]; [eauto | discriminate].
Qed.

Lemma severity_is_never_normalized_witness :
  Forall (fun f => SystemDebug.issue f !! "severity" = None)
         Outputs.commission_fixes /\
  exists imp,
    generate_phase2_improvements (__init__ ".") Phase2Examples.fs_metrics = Ok imp.
Proof.
  destruct severity_is_never_normalized as (Hnone & _ & _ & Hdone).
  split.
  - apply (Hnone Examples.fs_commission (SystemDebug.__init__ ".")).
    exact SystemDebugProofs.run_commission.
  - eapply (Hdone (__init__ ".") Phase2Examples.fs_metrics). reflexivity.
Defined.

(** ** Failures inside the walk *)





(** ** Findings per match *)

Lemma commission_loop_inv fs files acc self l :
  fst (SystemDebug.commission_loop fs files acc self) = Ok l ->
  l = acc ++ map SystemDebug.commission_issue
               (filter (fun p => commission_match fs (SystemDebug.repo_path self) p = true)
                       files).
Proof.
  revert acc. induction files as [|f files IH]; intros acc; simpl.
  - intros [= <-]. rewrite app_nil_r. reflexivity.
  - cbv [SystemDebug.call SystemDebug.self_repo_path SystemDebug.lift open_read].
    cbn [fst snd]. rewrite filter_cons.
    destruct (decide (commission_match fs (SystemDebug.repo_path self) f = true))
      as [Hm|Hm]; unfold commission_match in Hm.
    + apply andb_prop in Hm as [-> Hm].
      destruct (fs_read fs _) as [content|]; [|discriminate].
      rewrite Hm. intros H%IH. rewrite H, <- app_assoc. reflexivity.
    + destruct (fs_exists fs _); [|apply IH].
      destruct (fs_read fs _) as [content|];
        [|destruct (fs_read_failure fs _); discriminate].
      destruct (PyStr.contains _ _); [|apply IH].
      exfalso. apply Hm. reflexivity.
Qed.





End Phase2Proofs.

(** ** Further properties of [kimi-dev-system-debug.py] *)

Module SystemDebugMore.
Import SystemDebug SystemDebugFacts SystemDebugProofs MoreFacts.

(** *** The sort, in closed form *)

Lemma flat_map_nil {A B} (f : A -> list B) (l : list A) :
  Forall (fun a => f a = []) l -> flat_map f l = [].
Proof. induction 1 as [|a l Ha _ IH]; simpl; [reflexivity|]. rewrite Ha, IH. reflexivity. Qed.

Lemma flat_map_ext_Forall {A B} (f g : A -> list B) (l : list A) :
  Forall (fun a => f a = g a) l -> flat_map f l = flat_map g l.
Proof. induction 1 as [|a l Ha _ IH]; simpl; [reflexivity|]. rewrite Ha, IH. reflexivity. Qed.

Lemma filter_key_cons_lt {A} (x : nat * A) (l : list (nat * A)) (k : nat) :
  Forall (key_le x) l -> (k < fst x)%nat ->
  filter (fun p => fst p = k) (x :: l) = [].
Proof.
  intros Hx Hk. apply filter_none. constructor; [lia|].
  eapply Forall_impl; [exact Hx|]. unfold key_le. intros; lia.
Qed.

(** A list sorted by key is the concatenation of its keys' classes. *)
Lemma sorted_by_classes {A} (n : nat) (l : list (nat * A)) :
  StronglySorted key_le l -> Forall (fun p => (fst p < n)%nat) l ->
  l = flat_map (fun k => filter (fun p => fst p = k) l) (seq 0 n).
Proof.
  induction 1 as [|x l Hl IH Hx]; intros Hn.
  - symmetry. apply flat_map_nil. apply Forall_forall. reflexivity.
  - apply Forall_cons in Hn as [Hxn Hln]. specialize (IH Hln).
    assert (Hseq : seq 0 n = seq 0 (fst x) ++ fst x :: seq (S (fst x)) (n - S (fst x))).
    { replace n with (fst x + S (n - S (fst x)))%nat at 1 by lia.
      rewrite seq_app. reflexivity. }
    rewrite Hseq, flat_map_app. cbn [flat_map].
    rewrite flat_map_nil.
    2:{ apply Forall_forall. intros k Hk%list_elem_of_In%in_seq.
        apply filter_key_cons_lt; [exact Hx | lia]. }
    rewrite filter_cons, decide_True by reflexivity.
    cbn [app]. f_equal.
    rewrite (flat_map_ext_Forall _ (fun k => filter (fun p => fst p = k) l)).
    2:{ apply Forall_forall. intros k Hk%list_elem_of_In%in_seq.
        rewrite filter_cons, decide_False by lia. reflexivity. }
    rewrite IH at 1. rewrite Hseq, flat_map_app. cbn [flat_map].
    rewrite flat_map_nil; [reflexivity|].
    apply Forall_forall. intros k Hk%list_elem_of_In%in_seq.
    apply filter_none. eapply Forall_impl; [exact Hx|].
    unfold key_le. intros; lia.
Qed.

Lemma key_matches_type (keyed : list (nat * Issue)) t k :
  list_index priority_order t = Ok k ->
  Forall (fun p => priority_key (snd p) = Ok (fst p)) keyed ->
  Forall (fun p => snd p !! "type" = Some t <-> fst p = k) keyed.
Proof.
  intros Ht Hf. eapply Forall_impl; [exact Hf|].
  intros [n x] Hx; cbn [fst snd] in *. split.
  - intros Hty. rewrite (priority_key_type _ _ Hty) in Hx. congruence.
  - intros ->. destruct (priority_key_inv _ _ Hx) as (t' & Ht' & Hn).
    apply list_index_lookup in Hn, Ht. congruence.
Qed.

Lemma priority_key_bound x n : priority_key x = Ok n -> (n < 5)%nat.
Proof.
  intros (t & _ & Hn%list_index_lookup)%priority_key_inv.
  apply lookup_lt_Some in Hn. exact Hn.
Qed.

Lemma sorted_by_type_classes all_issues sorted_issues :
  sorted priority_key all_issues = Ok sorted_issues ->
  sorted_issues
  = of_type "critical" all_issues ++ of_type "functionality" all_issues
    ++ of_type "ui_consistency" all_issues ++ of_type "data_accuracy" all_issues
    ++ of_type "feature_removal" all_issues.
Proof.
  intros Hs. destruct (sorted_inv _ _ _ Hs) as (keys & Hk & Hlen & Hout).
  set (keyed := stable_sort (combine keys all_issues)) in *.
  assert (Hkeyed : Forall (fun p => priority_key (snd p) = Ok (fst p)) keyed).
  { unfold keyed. rewrite stable_sort_perm. eapply keyed_combine; eauto. }
  assert (Hbound : Forall (fun p => (fst p < 5)%nat) keyed).
  { eapply Forall_impl; [exact Hkeyed|]. intros p Hp. eapply priority_key_bound, Hp. }
  pose proof (sorted_by_classes 5 keyed (stable_sort_sorted _) Hbound) as Hdec.
  cbn [seq flat_map] in Hdec. rewrite app_nil_r in Hdec.
  assert (Hclass : forall t k, list_index priority_order t = Ok k ->
            map snd (filter (fun p => fst p = k) keyed) = of_type t all_issues).
  { intros t k Ht. unfold of_type.
    rewrite <- (sorted_stable_by_type _ _ t Hs), Hout.
    symmetry. apply filter_by_key, key_matches_type; assumption. }
  rewrite Hout, Hdec, !map_app.
  rewrite (Hclass "critical" 0%nat), (Hclass "functionality" 1%nat),
    (Hclass "ui_consistency" 2%nat), (Hclass "data_accuracy" 3%nat),
    (Hclass "feature_removal" 4%nat) by reflexivity.
  reflexivity.
Qed.

(** X1: the sorted list is the concatenation, in the order of the
    priority table, of the issues of each type taken in the order in which
    they were emitted. *)
Theorem sorted_is_concatenation_of_types all_issues sorted_issues :
  sorted priority_key all_issues = Ok sorted_issues ->
  sorted_issues
  = of_type "critical" all_issues ++ of_type "functionality" all_issues
    ++ of_type "ui_consistency" all_issues ++ of_type "data_accuracy" all_issues
    ++ of_type "feature_removal" all_issues.
Proof. apply sorted_by_type_classes. Qed.

Lemma sorted_is_concatenation_of_types_witness :
  Outputs.mixed_sorted
  = of_type "critical" Outputs.mixed_issues
    ++ of_type "functionality" Outputs.mixed_issues
    ++ of_type "ui_consistency" Outputs.mixed_issues
    ++ of_type "data_accuracy" Outputs.mixed_issues
    ++ of_type "feature_removal" Outputs.mixed_issues.
Proof.
  apply (sorted_is_concatenation_of_types Outputs.mixed_issues Outputs.mixed_sorted).
  reflexivity.
Defined.

(** C1 (amended): the fix list is ordered by the rank of the issue type
    in the priority table and, within one type, by the order of
    emission; nothing else decides.  The issues of a fix list are the
    critical findings, then the functionality, ui_consistency,
    data_accuracy and feature_removal findings of the five analyses,
    each group in the order in which the analyses emitted it; the
    findings of any one type stand in the fix list as they were emitted;
    the priority numbers are 1, 2, ... in the order of the list; and
    whenever the type of A ranks below the type of B, A has the smaller
    priority number. *)
Theorem ordered_by_type_rank_then_emission fs self new_fixes :
  fst (generate_systematic_fixes fs self) = Ok new_fixes ->
  exists l1 l2 l3 l4 l5,
    fst (analyze_database_schema_errors fs self) = Ok l1 /\
    fst (analyze_date_inconsistencies fs self) = Ok l2 /\
    fst (analyze_client_deletion_errors fs self) = Ok l3 /\
    fst (analyze_ui_display_inconsistencies fs self) = Ok l4 /\
    fst (analyze_commission_system_removal fs self) = Ok l5 /\
    map issue new_fixes
    = of_type "critical" (l1 ++ l2 ++ l3 ++ l4 ++ l5)
      ++ of_type "functionality" (l1 ++ l2 ++ l3 ++ l4 ++ l5)
      ++ of_type "ui_consistency" (l1 ++ l2 ++ l3 ++ l4 ++ l5)
      ++ of_type "data_accuracy" (l1 ++ l2 ++ l3 ++ l4 ++ l5)
      ++ of_type "feature_removal" (l1 ++ l2 ++ l3 ++ l4 ++ l5) /\
    (forall t,
        of_type t (map issue new_fixes) = of_type t (l1 ++ l2 ++ l3 ++ l4 ++ l5)) /\
    map priority new_fixes = seq 1 (length new_fixes) /\
    (forall A B ra rb,
        A ∈ new_fixes -> B ∈ new_fixes ->
        priority_key (issue A) = Ok ra -> priority_key (issue B) = Ok rb ->
        (ra < rb)%nat -> (priority A < priority B)%nat).
Proof.
  intros Hrun.
  destruct (generate_systematic_fixes_inv _ _ _ Hrun)
    as (l1 & l2 & l3 & l4 & l5 & H1 & H2 & H3 & H4 & H5 & Hp).
  apply prioritize_inv in Hp as (Hs & Hprio & Hlen & _).
  exists l1, l2, l3, l4, l5. repeat (split; [assumption|]).
  split; [exact (sorted_by_type_classes _ _ Hs)|].
  split; [intros t; exact (sorted_stable_by_type _ _ t Hs)|].
  split; [rewrite Hprio, Hlen; reflexivity|].
  intros A B ra rb. exact (priority_follows_rank fs self new_fixes A B ra rb Hrun).
Qed.

Lemma ordered_by_type_rank_then_emission_witness :
  exists new_fixes,
    fst (generate_systematic_fixes fs_project (__init__ ".")) = Ok new_fixes /\
    map (fun f => (priority f, issue f !! "type", issue f !! "file")) new_fixes
    = [(1%nat, Some "critical", Some "server/storage.ts");
       (2%nat, Some "functionality", Some "server/routes.ts");
       (3%nat, Some "ui_consistency", Some "client/src/App.tsx");
       (4%nat, Some "data_accuracy", Some "client/src/pages/performance.tsx");
       (5%nat, Some "data_accuracy", Some "client/src/pages/performance-simple.tsx");
       (6%nat, Some "data_accuracy", Some "client/src/pages/performance-direct.tsx");
       (7%nat, Some "feature_removal", Some "server/storage.ts");
       (8%nat, Some "feature_removal", Some "server/routes.ts");
       (9%nat, Some "feature_removal", Some "shared/schema.ts");
       (10%nat, Some "feature_removal", Some "client/src/pages/performance-direct.tsx")] /\
    exists l1 l2 l3 l4 l5,
      fst (analyze_database_schema_errors fs_project (__init__ ".")) = Ok l1 /\
      fst (analyze_date_inconsistencies fs_project (__init__ ".")) = Ok l2 /\
      fst (analyze_client_deletion_errors fs_project (__init__ ".")) = Ok l3 /\
      fst (analyze_ui_display_inconsistencies fs_project (__init__ ".")) = Ok l4 /\
      fst (analyze_commission_system_removal fs_project (__init__ ".")) = Ok l5 /\
      map issue new_fixes
      = of_type "critical" (l1 ++ l2 ++ l3 ++ l4 ++ l5)
        ++ of_type "functionality" (l1 ++ l2 ++ l3 ++ l4 ++ l5)
        ++ of_type "ui_consistency" (l1 ++ l2 ++ l3 ++ l4 ++ l5)
        ++ of_type "data_accuracy" (l1 ++ l2 ++ l3 ++ l4 ++ l5)
        ++ of_type "feature_removal" (l1 ++ l2 ++ l3 ++ l4 ++ l5) /\
      (forall t,
          of_type t (map issue new_fixes) = of_type t (l1 ++ l2 ++ l3 ++ l4 ++ l5)) /\
      map priority new_fixes = seq 1 (length new_fixes) /\
      (forall A B ra rb,
          A ∈ new_fixes -> B ∈ new_fixes ->
          priority_key (issue A) = Ok ra -> priority_key (issue B) = Ok rb ->
          (ra < rb)%nat -> (priority A < priority B)%nat).
Proof.
  eexists. split; [reflexivity|]. split; [reflexivity|].
  apply (ordered_by_type_rank_then_emission fs_project (__init__ ".")).
  reflexivity.
Defined.

(** *** What [prioritize] needs and keeps *)

Lemma mapM_ok_iff {A B} (f : A -> result B) (l : list A) :
  is_ok (mapM f l) = true <-> Forall (fun x => is_ok (f x) = true) l.
Proof.
  split.
  - destruct (mapM f l) as [ys|] eqn:H; [|discriminate]. intros _.
    apply mapM_Forall2 in H. induction H as [|x y l ys Hx _ IH]; constructor; [|exact IH].
    rewrite Hx. reflexivity.
  - intros H. destruct (mapM_total f l H) as [ys ->]. reflexivity.
Qed.

Lemma fix_steps_ok_iff x : is_ok (fix_steps x) = true <-> is_Some (x !! "category").
Proof.
  unfold fix_steps, getitem. destruct (x !! "category"); simpl.
  - split; eauto.
  - split; [discriminate | intros [? ?]; discriminate].
Qed.

(** X2: [prioritize] returns a fix list exactly when every issue has a
    type of the priority table and a category; otherwise it raises. *)
Theorem prioritize_succeeds_iff (l : list Issue) self :
  is_ok (fst (prioritize l self)) = true
  <-> Forall (fun x : Issue =>
                is_ok (priority_key x) = true /\ is_Some (x !! "category")) l.
Proof.
  rewrite prioritize_run. cbn [fst]. split.
  - intros H.
    destruct (sorted priority_key l) as [s|] eqn:Hs; [|discriminate]. cbn [bind] in H.
    assert (Hkeys : Forall (fun x => is_ok (priority_key x) = true) l).
    { apply mapM_ok_iff. destruct (sorted_inv _ _ _ Hs) as (keys & -> & _). reflexivity. }
    assert (Hcat : Forall (fun x => is_ok (fix_steps x) = true) l).
    { rewrite <- (sorted_perm _ _ _ Hs). apply mapM_ok_iff.
      destruct (mapM fix_steps s); [reflexivity | discriminate]. }
    apply Forall_and. split; [exact Hkeys|].
    eapply Forall_impl; [exact Hcat|]. intros x. apply fix_steps_ok_iff.
  - intros [Hkeys Hcat]%Forall_and.
    destruct (sorted_total priority_key l Hkeys) as [s Hs]. rewrite Hs. cbn [bind].
    destruct (mapM_total fix_steps s) as [stepss ->]; [|reflexivity].
    rewrite (sorted_perm _ _ _ Hs).
    eapply Forall_impl; [exact Hcat|]. intros x. apply fix_steps_ok_iff.
Qed.

Lemma prioritize_succeeds_iff_witness :
  is_ok (fst (prioritize Outputs.mixed_issues (__init__ "."))) = true /\
  is_ok (fst (prioritize [Phase2Examples.urgent_issue] (__init__ "."))) = false.
Proof.
  split.
  - apply prioritize_succeeds_iff. repeat constructor; eexists; reflexivity.
  - apply not_true_is_false. intros H%prioritize_succeeds_iff.
    apply Forall_cons in H as [[H _] _]. discriminate H.
Defined.

(** X3: prioritisation neither drops nor duplicates an issue: the issues
    of the fix list are a permutation of the issues given, and there are
    as many fixes as issues. *)
Theorem prioritize_keeps_every_issue (l : list Issue) self new_fixes :
  fst (prioritize l self) = Ok new_fixes ->
  map issue new_fixes ≡ₚ l /\ length new_fixes = length l.
Proof.
  intros (Hs & _ & Hlen & _)%prioritize_inv.
  split; [eapply sorted_perm, Hs | exact Hlen].
Qed.

Lemma prioritize_keeps_every_issue_witness :
  map issue Outputs.commission_fixes
  ≡ₚ [commission_issue "server/storage.ts"; commission_issue "server/routes.ts"] /\
  length Outputs.commission_fixes = 2%nat.
Proof.
  apply (prioritize_keeps_every_issue
           [commission_issue "server/storage.ts"; commission_issue "server/routes.ts"]
           (__init__ ".") Outputs.commission_fixes).
  reflexivity.
Defined.

(** *** What each analysis returns *)

Lemma open_read_raise fs p e :
  fs_exists fs p = true -> open_read fs p = Raise e -> unreadable fs [p] e.
Proof.
  unfold open_read. intros Hex.
  destruct (fs_read fs p) as [content|] eqn:Hrd; [discriminate|].
  destruct (fs_read_failure fs p); intros [= <-];
    exists p; (split; [left; reflexivity|]); auto.
Qed.

Lemma unreadable_incl fs paths paths' e :
  (forall p, In p paths -> In p paths') ->
  unreadable fs paths e -> unreadable fs paths' e.
Proof. intros Hincl (p & Hin & H). exists p. split; [apply Hincl, Hin | exact H]. Qed.

Ltac single_file_outcome :=
  cbv [call self_repo_path lift ret analysis_outcome]; cbn [fst snd];
  match goal with
  | |- context [fs_exists ?fs ?p] =>
      destruct (fs_exists fs p) eqn:Hexists;
      [destruct (open_read fs p) as [content|e] eqn:Hread|]
  end; cbn [fst snd];
  repeat match goal with
         | |- context [if ?b then _ else _] => destruct b
         end;
  cbn [fst snd];
  first [ split; [repeat constructor | simpl; lia]
        | eapply open_read_raise; eassumption ].

Lemma analyze_database_schema_errors_outcome fs self :
  analysis_outcome fs
    [os_path_join (os_path_join (repo_path self) "server") "storage.ts"]
    "critical" "database_schema" 1
    (fst (analyze_database_schema_errors fs self)).
Proof. unfold analyze_database_schema_errors. single_file_outcome. Qed.

Lemma analyze_client_deletion_errors_outcome fs self :
  analysis_outcome fs
    [os_path_join (os_path_join (repo_path self) "server") "routes.ts"]
    "functionality" "client_management" 1
    (fst (analyze_client_deletion_errors fs self)).
Proof. unfold analyze_client_deletion_errors. single_file_outcome. Qed.

Lemma analyze_ui_display_inconsistencies_outcome fs self :
  analysis_outcome fs
    [os_path_join (os_path_join (os_path_join (repo_path self) "client") "src")
       "App.tsx"]
    "ui_consistency" "component_loading" 1
    (fst (analyze_ui_display_inconsistencies fs self)).
Proof. unfold analyze_ui_display_inconsistencies. single_file_outcome. Qed.

Lemma date_loop_inv fs files acc self l :
  fst (date_loop fs files acc self) = Ok l ->
  l = acc ++ map date_issue
               (filter (fun p => date_match fs (repo_path self) p = true) files).
Proof.
  revert acc. induction files as [|f files IH]; intros acc; simpl.
  - intros [= <-]. rewrite app_nil_r. reflexivity.
  - cbv [call self_repo_path lift open_read]. cbn [fst snd]. rewrite filter_cons.
    destruct (decide (date_match fs (repo_path self) f = true)) as [Hm|Hm];
      unfold date_match in Hm.
    + apply andb_prop in Hm as [-> Hm].
      destruct (fs_read fs _) as [content|]; [|discriminate].
      rewrite Hm. intros H%IH. rewrite H, <- app_assoc. reflexivity.
    + destruct (fs_exists fs _); [|apply IH].
      destruct (fs_read fs _) as [content|];
        [|destruct (fs_read_failure fs _); discriminate].
      destruct (_ || _); [|apply IH]. exfalso. apply Hm. reflexivity.
Qed.

Lemma date_loop_raise fs files acc self e :
  fst (date_loop fs files acc self) = Raise e ->
  unreadable fs (map (os_path_join (repo_path self)) files) e.
Proof.
  revert acc. induction files as [|f files IH]; intros acc; simpl; [discriminate|].
  cbv [call self_repo_path lift]. cbn [fst snd].
  destruct (fs_exists fs _) eqn:He.
  - destruct (open_read fs _) as [content|e'] eqn:Hr.
    + destruct (_ || _); intros H%IH;
        (eapply unreadable_incl; [|exact H]); intros p Hp; right; exact Hp.
    + intros [= <-]. eapply unreadable_incl; [|eapply open_read_raise; eassumption].
      intros p [<-|[]]. left. reflexivity.
  - intros H%IH. eapply unreadable_incl; [|exact H]. intros p Hp. right. exact Hp.
Qed.

Lemma commission_loop_raise fs files acc self e :
  fst (commission_loop fs files acc self) = Raise e ->
  unreadable fs (map (os_path_join (repo_path self)) files) e.
Proof.
  revert acc. induction files as [|f files IH]; intros acc; simpl; [discriminate|].
  cbv [call self_repo_path lift]. cbn [fst snd].
  destruct (fs_exists fs _) eqn:He.
  - destruct (open_read fs _) as [content|e'] eqn:Hr.
    + destruct (PyStr.contains _ _); intros H%IH;
        (eapply unreadable_incl; [|exact H]); intros p Hp; right; exact Hp.
    + intros [= <-]. eapply unreadable_incl; [|eapply open_read_raise; eassumption].
      intros p [<-|[]]. left. reflexivity.
  - intros H%IH. eapply unreadable_incl; [|exact H]. intros p Hp. right. exact Hp.
Qed.

Lemma length_filter_le {A} (P : A -> Prop) `{forall x, Decision (P x)} (l : list A) :
  (length (filter P l) <= length l)%nat.
Proof.
  induction l as [|x l IH]; [reflexivity|].
  rewrite filter_cons. destruct (decide (P x)); simpl; lia.
Qed.

Lemma analyze_date_inconsistencies_outcome fs self :
  analysis_outcome fs (map (os_path_join (repo_path self)) performance_files)
    "data_accuracy" "date_consistency" 3
    (fst (analyze_date_inconsistencies fs self)).
Proof.
  unfold analysis_outcome, analyze_date_inconsistencies.
  destruct (fst (date_loop fs performance_files [] self)) as [l|e] eqn:H.
  - apply date_loop_inv in H. rewrite H. cbn [app]. split.
    + apply Forall_map, Forall_forall. reflexivity.
    + rewrite length_map.
      etransitivity; [apply length_filter_le | reflexivity].
  - eapply date_loop_raise, H.
Qed.

Lemma analyze_commission_system_removal_outcome fs self :
  analysis_outcome fs (map (os_path_join (repo_path self)) files_to_check)
    "feature_removal" "commission_system" 4
    (fst (analyze_commission_system_removal fs self)).
Proof.
  unfold analysis_outcome, analyze_commission_system_removal.
  destruct (fst (commission_loop fs files_to_check [] self)) as [l|e] eqn:H.
  - apply Phase2Proofs.commission_loop_inv in H. rewrite H. cbn [app]. split.
    + apply Forall_map, Forall_forall. reflexivity.
    + rewrite length_map.
      etransitivity; [apply length_filter_le | reflexivity].
  - eapply commission_loop_raise, H.
Qed.

Ltac scanned H :=
  left; eexists; split; [reflexivity|];
  eapply unreadable_incl; [|exact H];
  intros p Hp; unfold scanned_paths; rewrite !in_app_iff; tauto.

(** The outcomes of the five analyses, as [generate_systematic_fixes]
    meets them *)
Lemma generate_systematic_fixes_cases fs self :
  (exists e, fst (generate_systematic_fixes fs self) = Raise e /\
             unreadable fs (scanned_paths (repo_path self)) e) \/
  (exists l1 l2 l3 l4 l5,
      fst (analyze_database_schema_errors fs self) = Ok l1 /\
      fst (analyze_date_inconsistencies fs self) = Ok l2 /\
      fst (analyze_client_deletion_errors fs self) = Ok l3 /\
      fst (analyze_ui_display_inconsistencies fs self) = Ok l4 /\
      fst (analyze_commission_system_removal fs self) = Ok l5 /\
      fst (generate_systematic_fixes fs self)
      = fst (prioritize (l1 ++ l2 ++ l3 ++ l4 ++ l5) self)).
Proof.
  pose proof (analyze_database_schema_errors_outcome fs self) as H1.
  pose proof (analyze_date_inconsistencies_outcome fs self) as H2.
  pose proof (analyze_client_deletion_errors_outcome fs self) as H3.
  pose proof (analyze_ui_display_inconsistencies_outcome fs self) as H4.
  pose proof (analyze_commission_system_removal_outcome fs self) as H5.
  unfold generate_systematic_fixes. cbv zeta.
  rewrite call_run by apply rorp_analyze_database_schema_errors.
  destruct (fst (analyze_database_schema_errors fs self)) as [l1|e]; [|scanned H1].
  rewrite call_run by apply rorp_date_loop.
  destruct (fst (analyze_date_inconsistencies fs self)) as [l2|e]; [|scanned H2].
  rewrite call_run by apply rorp_analyze_client_deletion_errors.
  destruct (fst (analyze_client_deletion_errors fs self)) as [l3|e]; [|scanned H3].
  rewrite call_run by apply rorp_analyze_ui_display_inconsistencies.
  destruct (fst (analyze_ui_display_inconsistencies fs self)) as [l4|e]; [|scanned H4].
  rewrite call_run by apply rorp_commission_loop.
  destruct (fst (analyze_commission_system_removal fs self)) as [l5|e]; [|scanned H5].
  right. exists l1, l2, l3, l4, l5. repeat split.
  simpl. rewrite <- !app_assoc. reflexivity.
Qed.

(** *** The scan as a whole *)

Lemma tagged_well_formed t c x : tagged t c x = true -> well_formed x = true.
Proof. unfold tagged. intros [[H _]%andb_prop _]%andb_prop. exact H. Qed.

Lemma tagged_type t c x : tagged t c x = true -> x !! "type" = Some t.
Proof.
  unfold tagged. intros [[_ H]%andb_prop _]%andb_prop.
  apply bool_decide_eq_true in H. exact H.
Qed.

Lemma tagged_category t c x : tagged t c x = true -> x !! "category" = Some c.
Proof.
  unfold tagged. intros [_ H]%andb_prop. apply bool_decide_eq_true in H. exact H.
Qed.

(** X4: the scan and prioritisation of the system-debug script can only
    fail because one of the files it looks for exists and cannot be
    read, with the [OSError] of [open] or the [UnicodeDecodeError] of
    [read]; in particular it never raises [KeyError] or [ValueError],
    and it returns a fix list whenever each of these files that exists
    can be read, whatever else the tree holds. *)
Theorem scan_fails_only_on_unreadable_file fs self :
  (forall e,
      fst (generate_systematic_fixes fs self) = Raise e ->
      unreadable fs (scanned_paths (repo_path self)) e) /\
  (Forall (fun p => fs_exists fs p = true -> is_Some (fs_read fs p))
          (scanned_paths (repo_path self)) ->
   is_ok (fst (generate_systematic_fixes fs self)) = true).
Proof.
  assert (Honly : forall e,
             fst (generate_systematic_fixes fs self) = Raise e ->
             unreadable fs (scanned_paths (repo_path self)) e).
  { intros e He.
    destruct (generate_systematic_fixes_cases fs self)
      as [(e' & He' & Hu)|(l1 & l2 & l3 & l4 & l5 & H1 & H2 & H3 & H4 & H5 & Hp)].
    - congruence.
    - exfalso. rewrite Hp in He.
      destruct (prioritize_total (l1 ++ l2 ++ l3 ++ l4 ++ l5) self) as [fixes Hf];
        [|congruence].
      unfold all_well_formed. rewrite !Forall_app. repeat split.
      + eapply analyze_database_schema_errors_wf; eauto.
      + eapply date_loop_wf; [|exact H2]. constructor.
      + eapply analyze_client_deletion_errors_wf; eauto.
      + eapply analyze_ui_display_inconsistencies_wf; eauto.
      + eapply commission_loop_wf; [|exact H5]. constructor. }
  split; [exact Honly|]. intros Hreadable.
  destruct (fst (generate_systematic_fixes fs self)) as [fixes|e] eqn:H; [reflexivity|].
  destruct (Honly e eq_refl) as (p & Hin & Hex & Hrd & _).
  rewrite List.Forall_forall in Hreadable.
  destruct (Hreadable p Hin Hex) as [content Hc]. congruence.
Qed.

Lemma scan_fails_only_on_unreadable_file_witness :
  unreadable fs_locked (scanned_paths ".") (OSError "./server/storage.ts") /\
  unreadable fs_binary (scanned_paths ".") (UnicodeDecodeError "./server/routes.ts") /\
  is_ok (fst (generate_systematic_fixes fs_project (__init__ "."))) = true.
Proof.
  split; [|split].
  - apply (proj1 (scan_fails_only_on_unreadable_file fs_locked (__init__ "."))).
    reflexivity.
  - apply (proj1 (scan_fails_only_on_unreadable_file fs_binary (__init__ "."))).
    reflexivity.
  - apply (proj2 (scan_fails_only_on_unreadable_file fs_project (__init__ "."))).
    repeat constructor; intros _; eexists; reflexivity.
Defined.

Lemma paired_steps x :
  paired x = true ->
  exists t c steps,
    In (t, c) type_category_pairs /\
    x !! "type" = Some t /\ x !! "category" = Some c /\
    fix_steps x = Ok steps /\ length steps = 3%nat /\
    ~ In "Manual analysis required" steps.
Proof.
  unfold paired. intros ((t & c) & Hin & Htag)%existsb_exists. cbn [fst snd] in Htag.
  pose proof (tagged_type _ _ _ Htag) as Ht.
  pose proof (tagged_category _ _ _ Htag) as Hc.
  exists t, c, (steps_for_category c).
  split; [exact Hin|]. split; [exact Ht|]. split; [exact Hc|].
  split; [unfold fix_steps, getitem; rewrite Hc; reflexivity|].
  simpl in Hin.
  destruct Hin as [[= <- <-]|[[= <- <-]|[[= <- <-]|[[= <- <-]|[[= <- <-]|[]]]]]];
    (split; [reflexivity|]);
    simpl; intros H; repeat (destruct H as [H|H]; [discriminate H|]); exact H.
Qed.

Lemma tagged_paired t c (l : list Issue) :
  In (t, c) type_category_pairs ->
  Forall (fun x => tagged t c x = true) l -> Forall (fun x => paired x = true) l.
Proof.
  intros Hin H. eapply Forall_impl; [exact H|]. intros x Hx.
  unfold paired. apply existsb_exists. exists (t, c). split; [exact Hin | exact Hx].
Qed.

(** The issues of a run, each with the type and category of its analysis *)
Lemma run_issues_paired fs self new_fixes :
  fst (generate_systematic_fixes fs self) = Ok new_fixes ->
  Forall (fun x => paired x = true) (map issue new_fixes).
Proof.
  intros Hrun.
  pose proof (analyze_database_schema_errors_outcome fs self) as O1.
  pose proof (analyze_date_inconsistencies_outcome fs self) as O2.
  pose proof (analyze_client_deletion_errors_outcome fs self) as O3.
  pose proof (analyze_ui_display_inconsistencies_outcome fs self) as O4.
  pose proof (analyze_commission_system_removal_outcome fs self) as O5.
  apply generate_systematic_fixes_inv in Hrun
    as (l1 & l2 & l3 & l4 & l5 & H1 & H2 & H3 & H4 & H5 & Hp).
  rewrite H1 in O1. rewrite H2 in O2. rewrite H3 in O3. rewrite H4 in O4.
  rewrite H5 in O5.
  apply prioritize_inv in Hp as (Hs & _).
  rewrite (sorted_perm _ _ _ Hs), !Forall_app. repeat split.
  - eapply tagged_paired; [|apply O1]. simpl; tauto.
  - eapply tagged_paired; [|apply O2]. simpl; tauto.
  - eapply tagged_paired; [|apply O3]. simpl; tauto.
  - eapply tagged_paired; [|apply O4]. simpl; tauto.
  - eapply tagged_paired; [|apply O5]. simpl; tauto.
Qed.

(** X5: in the fix list of a run, the type of an issue determines its
    category as the five analyses pair them, every fix has exactly three
    implementation steps, and the fallback step "Manual analysis
    required" never occurs. *)
Theorem run_never_needs_manual_analysis fs self new_fixes :
  fst (generate_systematic_fixes fs self) = Ok new_fixes ->
  Forall (fun f =>
            (exists t c, In (t, c) type_category_pairs /\
                         issue f !! "type" = Some t /\
                         issue f !! "category" = Some c) /\
            length (implementation_steps f) = 3%nat /\
            ~ In "Manual analysis required" (implementation_steps f))
         new_fixes.
Proof.
  intros Hrun. pose proof (run_issues_paired _ _ _ Hrun) as Hp.
  apply generate_systematic_fixes_inv in Hrun
    as (l1 & l2 & l3 & l4 & l5 & _ & _ & _ & _ & _ & Hrun).
  apply prioritize_inv in Hrun as (_ & _ & _ & Hsteps).
  rewrite Forall_map in Hp.
  rewrite Forall_forall in Hp, Hsteps. apply Forall_forall. intros f Hf.
  destruct (paired_steps _ (Hp f Hf)) as (t & c & steps & Hin & Ht & Hc & Hst & Hlen & Hno).
  rewrite (Hsteps f Hf) in Hst. injection Hst as <-. eauto 10.
Qed.

Lemma run_never_needs_manual_analysis_witness :
  Forall (fun f =>
            (exists t c, In (t, c) type_category_pairs /\
                         issue f !! "type" = Some t /\
                         issue f !! "category" = Some c) /\
            length (implementation_steps f) = 3%nat /\
            ~ In "Manual analysis required" (implementation_steps f))
         Outputs.commission_fixes.
Proof.
  apply (run_never_needs_manual_analysis Examples.fs_commission (__init__ ".")).
  reflexivity.
Defined.

(** X6: a run returns at most ten fixes: one for the schema, three for the
    dates, one for client deletion, one for component loading and four for
    the commission system. *)
Theorem run_returns_at_most_ten_fixes fs self new_fixes :
  fst (generate_systematic_fixes fs self) = Ok new_fixes ->
  (length new_fixes <= 10)%nat.
Proof.
  intros Hrun.
  pose proof (analyze_database_schema_errors_outcome fs self) as O1.
  pose proof (analyze_date_inconsistencies_outcome fs self) as O2.
  pose proof (analyze_client_deletion_errors_outcome fs self) as O3.
  pose proof (analyze_ui_display_inconsistencies_outcome fs self) as O4.
  pose proof (analyze_commission_system_removal_outcome fs self) as O5.
  apply generate_systematic_fixes_inv in Hrun
    as (l1 & l2 & l3 & l4 & l5 & H1 & H2 & H3 & H4 & H5 & Hp).
  rewrite H1 in O1. rewrite H2 in O2. rewrite H3 in O3. rewrite H4 in O4.
  rewrite H5 in O5.
  apply prioritize_inv in Hp as (_ & _ & Hlen & _).
  rewrite Hlen, !length_app.
  destruct O1 as [_ ?], O2 as [_ ?], O3 as [_ ?], O4 as [_ ?], O5 as [_ ?]. lia.
Qed.

Lemma run_returns_at_most_ten_fixes_witness :
  exists new_fixes,
    fst (generate_systematic_fixes fs_everything (__init__ ".")) = Ok new_fixes /\
    length new_fixes = 10%nat /\ (length new_fixes <= 10)%nat.
Proof.
  eexists. split; [reflexivity|]. split; [reflexivity|].
  apply (run_returns_at_most_ten_fixes fs_everything (__init__ ".")). reflexivity.
Defined.

(** *** The order of a run's fix list *)

Lemma of_type_same t c (l : list Issue) :
  Forall (fun x => tagged t c x = true) l -> of_type t l = l.
Proof.
  unfold of_type. induction 1 as [|x l Hx _ IH]; [reflexivity|].
  rewrite filter_cons, decide_True by (eapply tagged_type, Hx). rewrite IH. reflexivity.
Qed.

Lemma of_type_other t t' c (l : list Issue) :
  Forall (fun x => tagged t' c x = true) l -> t <> t' -> of_type t l = [].
Proof.
  intros H Hne. apply filter_none. eapply Forall_impl; [exact H|].
  intros x Hx Hty. apply tagged_type in Hx. congruence.
Qed.

Lemma of_type_app t (l l' : list Issue) :
  of_type t (l ++ l') = of_type t l ++ of_type t l'.
Proof. apply filter_app. Qed.

(** X7: the fix list of a run lists the schema finding first, then the
    client-deletion finding, the component-loading finding, the date
    findings and the commission findings, each group in the order in
    which its analysis emitted it. *)
Theorem run_lists_findings_by_analysis fs self new_fixes :
  fst (generate_systematic_fixes fs self) = Ok new_fixes ->
  exists l1 l2 l3 l4 l5,
    fst (analyze_database_schema_errors fs self) = Ok l1 /\
    fst (analyze_date_inconsistencies fs self) = Ok l2 /\
    fst (analyze_client_deletion_errors fs self) = Ok l3 /\
    fst (analyze_ui_display_inconsistencies fs self) = Ok l4 /\
    fst (analyze_commission_system_removal fs self) = Ok l5 /\
    map issue new_fixes = l1 ++ l3 ++ l4 ++ l2 ++ l5.
Proof.
  intros Hrun.
  pose proof (analyze_database_schema_errors_outcome fs self) as O1.
  pose proof (analyze_date_inconsistencies_outcome fs self) as O2.
  pose proof (analyze_client_deletion_errors_outcome fs self) as O3.
  pose proof (analyze_ui_display_inconsistencies_outcome fs self) as O4.
  pose proof (analyze_commission_system_removal_outcome fs self) as O5.
  apply generate_systematic_fixes_inv in Hrun
    as (l1 & l2 & l3 & l4 & l5 & H1 & H2 & H3 & H4 & H5 & Hp).
  rewrite H1 in O1. rewrite H2 in O2. rewrite H3 in O3. rewrite H4 in O4.
  rewrite H5 in O5.
  destruct O1 as [T1 _], O2 as [T2 _], O3 as [T3 _], O4 as [T4 _], O5 as [T5 _].
  exists l1, l2, l3, l4, l5. repeat (split; [assumption|]).
  apply prioritize_inv in Hp as (Hs & _).
  rewrite (sorted_by_type_classes _ _ Hs), !of_type_app.
  rewrite (of_type_same _ _ _ T1), (of_type_same _ _ _ T2), (of_type_same _ _ _ T3),
    (of_type_same _ _ _ T4), (of_type_same _ _ _ T5).
  repeat match goal with
         | |- context [of_type ?t l1] =>
             rewrite (of_type_other t _ _ l1 T1) by discriminate
         | |- context [of_type ?t l2] =>
             rewrite (of_type_other t _ _ l2 T2) by discriminate
         | |- context [of_type ?t l3] =>
             rewrite (of_type_other t _ _ l3 T3) by discriminate
         | |- context [of_type ?t l4] =>
             rewrite (of_type_other t _ _ l4 T4) by discriminate
         | |- context [of_type ?t l5] =>
             rewrite (of_type_other t _ _ l5 T5) by discriminate
         end.
  rewrite ?app_nil_r. cbn [app]. reflexivity.
Qed.

Lemma run_lists_findings_by_analysis_witness :
  exists new_fixes,
    fst (generate_systematic_fixes fs_everything (__init__ ".")) = Ok new_fixes /\
    map (fun f => issue f !! "category") new_fixes
    = map Some ["database_schema"; "client_management"; "component_loading";
                "date_consistency"; "date_consistency"; "date_consistency";
                "commission_system"; "commission_system"; "commission_system";
                "commission_system"].
Proof.
  eexists. split; [reflexivity|].
  destruct (run_lists_findings_by_analysis fs_everything (__init__ ".") _ eq_refl)
    as (l1 & l2 & l3 & l4 & l5 & H1 & H2 & H3 & H4 & H5 & H).
  rewrite <- (map_map issue (fun x : Issue => x !! "category")), H.
  injection H1 as <-. injection H2 as <-. injection H3 as <-.
  injection H4 as <-. injection H5 as <-. reflexivity.
Defined.

(** X8: the date analysis yields exactly one finding for each of its
    three performance files that exists and contains "month=10" or
    "October", in the order of the list. *)
Theorem date_findings_one_per_matching_file fs self found :
  fst (analyze_date_inconsistencies fs self) = Ok found ->
  found = map date_issue
            (filter (fun p => date_match fs (repo_path self) p = true)
                    performance_files).
Proof. intros H. apply date_loop_inv in H. exact H. Qed.

Lemma date_findings_one_per_matching_file_witness :
  map date_issue performance_files
  = map date_issue
      (filter (fun p => date_match fs_everything "." p = true) performance_files).
Proof.
  apply (date_findings_one_per_matching_file fs_everything (__init__ ".")).
  reflexivity.
Defined.

(** *** The report *)

Lemma sapp_cons c (s t : string) : String c s +:+ t = String c (s +:+ t).
Proof. reflexivity. Qed.

Lemma sapp_nil_r (s : string) : s +:+ "" = s.
Proof. induction s as [|c s IH]; [reflexivity|]. rewrite sapp_cons, IH. reflexivity. Qed.

Lemma sapp_assoc (a b c : string) : (a +:+ b) +:+ c = a +:+ (b +:+ c).
Proof.
  induction a as [|x a IH]; [reflexivity|]. rewrite !sapp_cons, IH. reflexivity.
Qed.

Lemma join_empty_cons (x : string) (xs : list string) :
  PyStr.join "" (x :: xs) = x +:+ PyStr.join "" xs.
Proof.
  unfold PyStr.join. destruct xs as [|y ys]; simpl.
  - rewrite sapp_nil_r. reflexivity.
  - reflexivity.
Qed.

Lemma steps_loop_text steps report :
  steps_loop steps report = report +:+ steps_text steps.
Proof.
  revert report. induction steps as [|step rest IH]; intros report; simpl.
  - rewrite sapp_nil_r. reflexivity.
  - rewrite IH, !sapp_assoc. reflexivity.
Qed.

Lemma fixes_loop_run l report self :
  fixes_loop l report self =
  (let! texts := mapM fix_text l in Ok (report +:+ PyStr.join "" texts), self).
Proof.
  revert report. induction l as [|f l IH]; intros report.
  - simpl. unfold ret. rewrite sapp_nil_r. reflexivity.
  - cbn [fixes_loop mapM]. cbv [call lift]. unfold fix_text at 1.
    destruct (fix_section f) as [section|e]; cbn [bind]; [|reflexivity].
    rewrite IH. destruct (mapM fix_text l) as [texts|e]; cbn [bind]; [|reflexivity].
    rewrite join_empty_cons, steps_loop_text, !sapp_assoc. reflexivity.
Qed.

(** X9: a report is the header, with the clock reading and the number of
    fixes, followed by one block of text per fix in the order of the fix
    list, followed by the closing text; the blocks do not depend on the
    clock. *)
Theorem report_is_header_blocks_footer fs now self report :
  fst (create_implementation_report fs now self) = Ok report ->
  exists new_fixes texts,
    fst (generate_systematic_fixes fs self) = Ok new_fixes /\
    mapM fix_text new_fixes = Ok texts /\
    length texts = length new_fixes /\
    report = report_header (strftime now) (length new_fixes)
             +:+ PyStr.join "" texts +:+ report_footer.
Proof.
  unfold create_implementation_report.
  rewrite call_run by apply rorp_generate_systematic_fixes.
  destruct (fst (generate_systematic_fixes fs self)) as [new_fixes|e]; [|discriminate].
  unfold call. rewrite fixes_loop_run.
  destruct (mapM fix_text new_fixes) as [texts|e] eqn:Ht; cbn; [|discriminate].
  intros [= <-]. exists new_fixes, texts.
  split; [reflexivity|]. split; [exact Ht|].
  split; [eapply mapM_length, Ht|]. rewrite sapp_assoc. reflexivity.
Qed.

Lemma report_is_header_blocks_footer_witness :
  exists texts,
    mapM fix_text Outputs.commission_fixes = Ok texts /\
    length texts = 2%nat /\
    fst (create_implementation_report Examples.fs_commission
           Examples.monday_morning (__init__ "."))
    = Ok (report_header "2025-06-02 09:05:59" 2
          +:+ PyStr.join "" texts +:+ report_footer).
Proof.
  destruct (report_after_scan Examples.fs_commission Examples.monday_morning
              (__init__ ".") _ run_commission) as [report Hr].
  destruct (report_is_header_blocks_footer Examples.fs_commission
              Examples.monday_morning (__init__ ".") report Hr)
    as (new_fixes & texts & Hrun & Htexts & Hlen & Hrep).
  rewrite run_commission in Hrun. injection Hrun as <-.
  exists texts. split; [exact Htexts|]. split; [exact Hlen|].
  rewrite Hr, Hrep. reflexivity.
Defined.

(** *** The keyword checks *)

Lemma prefix_lower a s :
  String.prefix a s = true -> String.prefix (PyStr.lower a) (PyStr.lower s) = true.
Proof.
  revert s. induction a as [|x a IH]; intros [|y s]; simpl; try discriminate; auto.
  destruct (ascii_dec x y) as [->|]; [|discriminate]. intros H.
  destruct (ascii_dec (PyStr.to_lower y) (PyStr.to_lower y)); [auto | congruence].
Qed.

Lemma contains_lower a s :
  PyStr.contains a s = true -> PyStr.contains (PyStr.lower a) (PyStr.lower s) = true.
Proof.
  induction s as [|y s IH]; simpl.
  - rewrite !orb_false_r. apply (prefix_lower a "").
  - intros [H|H]%orb_prop; apply orb_true_iff.
    + left. apply (prefix_lower a (String y s)), H.
    + right. apply IH, H.
Qed.

(** X11: the commission check and the foreign-key check ignore letter
    case: a listed file that exists and contains the word "commission" in
    any mix of capitals is reported, and a routes file that contains
    "foreign key" in any mix of capitals is never reported. *)
Theorem keyword_checks_ignore_case fs self :
  (forall found p v content,
      fst (analyze_commission_system_removal fs self) = Ok found ->
      In p files_to_check ->
      fs_exists fs (os_path_join (repo_path self) p) = true ->
      fs_read fs (os_path_join (repo_path self) p) = Some content ->
      PyStr.lower v = "commission" -> PyStr.contains v content = true ->
      In (commission_issue p) found) /\
  (forall v content,
      fs_read fs (os_path_join (os_path_join (repo_path self) "server") "routes.ts")
      = Some content ->
      PyStr.lower v = "foreign key" -> PyStr.contains v content = true ->
      fst (analyze_client_deletion_errors fs self) = Ok []).
Proof.
  split.
  - intros found p v content Hrun Hp Hex Hrd Hv Hc.
    apply Phase2Proofs.commission_loop_inv in Hrun. cbn [app] in Hrun. rewrite Hrun.
    apply in_map, list_elem_of_In, list_elem_of_filter. split.
    + unfold Phase2Facts.commission_match. rewrite Hex, Hrd. cbn [andb].
      rewrite <- Hv. apply contains_lower, Hc.
    + apply list_elem_of_In, Hp.
  - intros v content Hrd Hv Hc.
    unfold analyze_client_deletion_errors.
    cbv [call self_repo_path lift ret open_read]. cbn [fst snd]. rewrite Hrd.
    apply contains_lower in Hc. rewrite Hv in Hc. rewrite Hc. cbn [negb].
    destruct (fs_exists fs _); [|reflexivity].
    destruct (_ && _); reflexivity.
Qed.

Lemma keyword_checks_ignore_case_witness :
  (exists found,
      fst (analyze_commission_system_removal fs_capitals (__init__ ".")) = Ok found /\
      In (commission_issue "shared/schema.ts") found) /\
  fst (analyze_client_deletion_errors fs_capitals (__init__ ".")) = Ok [].
Proof.
  destruct (keyword_checks_ignore_case fs_capitals (__init__ ".")) as [Hc Hf].
  split.
  - eexists. split; [reflexivity|].
    apply (Hc _ "shared/schema.ts" "COMMISSION" capitals_text eq_refl);
      [simpl; tauto | reflexivity..].
  - apply (Hf "FOREIGN KEY" capitals_text eq_refl); reflexivity.
Defined.

(** *** The import counts *)

Lemma prefix_app_inv a s :
  String.prefix a s = true -> exists r, s = a +:+ r.
Proof.
  revert s. induction a as [|x a IH]; intros s.
  - exists s. reflexivity.
  - destruct s as [|y s]; simpl; [discriminate|].
    destruct (ascii_dec x y) as [->|]; [|discriminate].
    intros [r ->]%IH. exists r. reflexivity.
Qed.

Lemma occurrences_nonneg sub s : (0 <= occurrences sub s)%Z.
Proof.
  induction s as [|c s IH]; cbn [occurrences].
  - destruct (String.prefix sub ""); lia.
  - destruct (String.prefix sub (String c s)); lia.
Qed.

Lemma count_go_le_occurrences sub s k :
  (0 <= PyStr.count_go sub k s <= occurrences sub s)%Z.
Proof.
  revert k. induction s as [|c s IH]; intros k.
  - cbn [PyStr.count_go occurrences]. destruct (String.prefix sub ""); lia.
  - cbn [PyStr.count_go occurrences]. destruct k as [|k].
    + destruct (String.prefix sub (String c s)).
      * specialize (IH (String.length sub - 1)%nat). lia.
      * specialize (IH 0%nat). lia.
    + specialize (IH k). destruct (String.prefix sub (String c s)); lia.
Qed.

Lemma occurrences_mono long short s :
  (forall t, String.prefix long t = true -> String.prefix short t = true) ->
  (occurrences long s <= occurrences short s)%Z.
Proof.
  intros H. induction s as [|c s IH]; cbn [occurrences].
  - destruct (String.prefix long "") eqn:E; [rewrite (H _ E); lia|].
    destruct (String.prefix short ""); lia.
  - destruct (String.prefix long (String c s)) eqn:E; [rewrite (H _ E); lia|].
    destruct (String.prefix short (String c s)); lia.
Qed.

(** Occurrences of ["import "] cannot overlap, so [count] finds them all. *)
Lemma count_go_import s k :
  none_within "import " k s = true ->
  PyStr.count_go "import " k s = occurrences "import " s.
Proof.
  revert k. induction s as [|c s IH]; intros k Hk; [reflexivity|].
  cbn [PyStr.count_go occurrences]. destruct k as [|k].
  - destruct (String.prefix "import " (String c s)) eqn:E.
    + rewrite IH; [reflexivity|].
      apply prefix_app_inv in E as [r E]. injection E as -> ->. reflexivity.
    + rewrite IH by reflexivity. reflexivity.
  - cbn [none_within] in Hk. apply andb_prop in Hk as [Hno Hk].
    apply negb_true_iff in Hno. rewrite Hno, IH by exact Hk. reflexivity.
Qed.

(** X12: the number of direct imports computed by the component-loading
    analysis, [content.count("import ") - content.count("import { lazy")],
    is never negative. *)
Theorem direct_import_count_is_not_negative (content : string) :
  (0 <= PyStr.count content "import " - PyStr.count content "import { lazy")%Z.
Proof.
  unfold PyStr.count.
  rewrite (count_go_import content 0) by reflexivity.
  pose proof (count_go_le_occurrences "import { lazy" content 0) as H1.
  pose proof (occurrences_mono "import { lazy" "import " content) as H2.
  cut (occurrences "import { lazy" content <= occurrences "import " content)%Z; [lia|].
  apply H2. intros t [r ->]%prefix_app_inv. reflexivity.
Qed.

End SystemDebugMore.

(** ** Further properties of [kimi-dev-phase2-analyzer.py] *)

Module Phase2More.
Import PathLib Phase2 Phase2Facts Phase2Proofs MoreFacts Phase2MoreFacts.

(** *** The image analysis *)

Lemma prefix_app_l a b s :
  String.prefix (a +:+ b) s = true -> String.prefix a s = true.
Proof.
  revert s. induction a as [|x a IH]; intros s; [destruct s; reflexivity|].
  destruct s as [|y s]; simpl; [discriminate|].
  destruct (ascii_dec x y); [apply IH | discriminate].
Qed.

Lemma contains_app_l a b s :
  PyStr.contains (a +:+ b) s = true -> PyStr.contains a s = true.
Proof.
  induction s as [|y s IH]; cbn [PyStr.contains].
  - rewrite !orb_false_r. apply prefix_app_l.
  - intros [H|H]%orb_prop; apply orb_true_iff; [left | right; auto].
    eapply prefix_app_l, H.
Qed.

Lemma eager_has_loading content :
  PyStr.contains loading_eager content = true ->
  PyStr.contains "loading=" content = true.
Proof. apply (contains_app_l "loading="). Qed.

Lemma image_loop_inv self fs components acc l :
  image_loop self fs components acc = Ok l ->
  exists per_component,
    l = acc ++ concat per_component /\
    Forall2 image_findings_for components per_component.
Proof.
  revert acc. induction components as [|c components IH]; intros acc; simpl.
  - intros [= <-]. exists []. split; [rewrite app_nil_r; reflexivity | constructor].
  - cbv [path_read].
    destruct (path_exists fs _) as [[|]|?]; cbn [bind]; [| |discriminate].
    + destruct (open_read fs _) as [content|]; [|discriminate]. cbn [bind].
      destruct (PyStr.contains loading_eager content) eqn:He.
      * rewrite (eager_has_loading _ He). cbn [orb negb andb]. rewrite andb_false_r.
        intros (pc & -> & Hpc)%IH. exists ([eager_issue c] :: pc).
        split; [rewrite <- app_assoc; reflexivity|].
        constructor; [right; left; reflexivity | exact Hpc].
      * cbn [orb]. destruct (_ && _).
        -- intros (pc & -> & Hpc)%IH. exists ([no_loading_issue c] :: pc).
           split; [rewrite <- app_assoc; reflexivity|].
           constructor; [right; right; reflexivity | exact Hpc].
        -- intros (pc & -> & Hpc)%IH. exists ([] :: pc).
           split; [reflexivity|]. constructor; [left; reflexivity | exact Hpc].
    + intros (pc & -> & Hpc)%IH. exists ([] :: pc).
      split; [reflexivity|]. constructor; [left; reflexivity | exact Hpc].
Qed.

Lemma image_findings_length components per_component :
  Forall2 image_findings_for components per_component ->
  (length (concat per_component) <= length components)%nat.
Proof.
  induction 1 as [|c n cs ns Hn _ IH]; simpl; [lia|].
  rewrite length_app. destruct Hn as [-> | [-> | ->]]; simpl; lia.
Qed.

(** X13: the image analysis never reports a component twice: each of the
    three inventory components gets no finding, the eager-loading finding
    or the missing-strategy finding, in the order of the list, so there
    are at most three findings. *)
Theorem image_analysis_reports_a_component_once self fs found :
  analyze_image_lazy_loading_opportunities self fs = Ok found ->
  exists per_component,
    found = concat per_component /\
    Forall2 image_findings_for image_components per_component /\
    (length found <= 3)%nat.
Proof.
  intros (pc & -> & Hpc)%image_loop_inv. exists pc. cbn [app].
  split; [reflexivity|]. split; [exact Hpc|].
  apply (image_findings_length _ _ Hpc).
Qed.

Lemma image_analysis_reports_a_component_once_witness :
  exists per_component,
    [eager_issue "client/src/components/inventory-table.tsx"] = concat per_component /\
    Forall2 image_findings_for image_components per_component /\
    (length [eager_issue "client/src/components/inventory-table.tsx"] <= 3)%nat.
Proof.
  apply (image_analysis_reports_a_component_once (__init__ ".") fs_images).
  reflexivity.
Defined.

(** *** The walk for large components *)

Lemma visit_file_cases self fs root file acc :
  visit_file self fs root file acc = acc \/
  exists size rel,
    PyStr.endswith file ".tsx" || PyStr.endswith file ".ts" = true /\
    fs_stat_size fs (str (truediv (parse root) file)) = Some size /\
    (15000 < size)%Z /\
    relative_to (truediv (parse root) file) (repo_path self) = Ok rel /\
    visit_file self fs root file acc
    = acc ++ [{| lc_file := str rel; lc_size := size |}].
Proof.
  unfold visit_file.
  destruct (_ || _) eqn:Hts; [|left; reflexivity].
  destruct (fs_stat_size fs _) as [size|] eqn:Hst; [|left; reflexivity].
  destruct (Z.ltb_spec 15000 size) as [Hlt|]; [|left; reflexivity].
  destruct (relative_to _ _) as [rel|] eqn:Hrel; [|left; reflexivity].
  right. exists size, rel. auto.
Qed.

Lemma files_loop_inv self fs root files acc :
  exists new,
    files_loop self fs root files acc = acc ++ new /\
    (length new <= length files)%nat /\
    Forall (fun c => (15000 < lc_size c)%Z /\
                     exists file rel,
                       In file files /\
                       PyStr.endswith file ".tsx" || PyStr.endswith file ".ts" = true /\
                       fs_stat_size fs (str (truediv (parse root) file))
                       = Some (lc_size c) /\
                       relative_to (truediv (parse root) file) (repo_path self)
                       = Ok rel /\
                       lc_file c = str rel) new.
Proof.
  revert acc. induction files as [|file files IH]; intros acc; simpl.
  - exists []. rewrite app_nil_r. repeat split; [simpl; lia | constructor].
  - destruct (visit_file_cases self fs root file acc)
      as [->|(size & rel & Hts & Hst & Hlt & Hrel & ->)].
    + destruct (IH acc) as (new & -> & Hlen & Hall). exists new.
      split; [reflexivity|]. split; [lia|].
      eapply Forall_impl; [exact Hall|].
      intros c (Hc & f & r & Hin & H). split; [exact Hc|]. exists f, r. auto.
    + destruct (IH (acc ++ [{| lc_file := str rel; lc_size := size |}]))
        as (new & -> & Hlen & Hall).
      exists ({| lc_file := str rel; lc_size := size |} :: new).
      split; [rewrite <- app_assoc; reflexivity|]. split; [simpl; lia|].
      constructor.
      * split; [exact Hlt|]. exists file, rel. simpl. auto.
      * eapply Forall_impl; [exact Hall|].
        intros c (Hc & f & r & Hin & H). split; [exact Hc|]. exists f, r. auto.
Qed.

Lemma walk_loop_inv self fs walk acc :
  exists new,
    walk_loop self fs walk acc = acc ++ new /\
    (length new <= length (flat_map (fun t => snd t) walk))%nat /\
    Forall (fun c => (15000 < lc_size c)%Z /\ from_walk self fs walk c) new.
Proof.
  revert acc. induction walk as [|[[root dirs] files] walk IH]; intros acc; simpl.
  - exists []. rewrite app_nil_r. repeat split; [simpl; lia | constructor].
  - destruct (files_loop_inv self fs root files acc) as (new1 & -> & Hlen1 & Hall1).
    destruct (IH (acc ++ new1)) as (new2 & -> & Hlen2 & Hall2).
    exists (new1 ++ new2). split; [rewrite <- app_assoc; reflexivity|].
    split; [rewrite !length_app; lia|].
    apply Forall_app. split.
    + eapply Forall_impl; [exact Hall1|].
      intros c (Hc & file & rel & Hin & Hts & Hst & Hrel & Hname).
      split; [exact Hc|]. exists root, dirs, files, file, rel. simpl. auto 10.
    + eapply Forall_impl; [exact Hall2|].
      intros c (Hc & r & d & fl & file & rel & Hin & H).
      split; [exact Hc|]. exists r, d, fl, file, rel. simpl. auto.
Qed.

(** X14: every component the walk records is a [.ts] or [.tsx] file of a
    walked directory whose size, as [stat] gives it, exceeds 15000
    bytes, and is named by its path relative to the repository; the walk
    records at most one component per file name it meets. *)
Theorem large_components_are_large_typescript_files self fs :
  let walk := fs_walk fs (str (truediv (repo_path self) "client/src")) in
  Forall (fun c => (15000 < lc_size c)%Z /\ from_walk self fs walk c)
         (find_large_components self fs) /\
  (length (find_large_components self fs)
   <= length (flat_map (fun t => snd t) walk))%nat.
Proof.
  intros walk. unfold find_large_components. fold walk.
  destruct (walk_loop_inv self fs walk []) as (new & -> & Hlen & Hall).
  cbn [app]. split; assumption.
Qed.

(** X15: the size shown for a component, in hundredths of a kilobyte, is
    the nearest one to the size in bytes divided by 1024 (off by at most
    half a hundredth), and is at least 14.65 for a component over the
    limit of 15000 bytes. *)
Theorem shown_size_is_nearest_hundredth (file_size : Z) :
  (0 <= file_size)%Z ->
  (Z.abs (1024 * size_kb_hundredths file_size - 100 * file_size) <= 512)%Z /\
  ((15000 < file_size)%Z -> (1465 <= size_kb_hundredths file_size)%Z).
Proof.
  intros Hpos. unfold size_kb_hundredths. cbv zeta.
  pose proof (Z.div_mod (file_size * 100) 1024 ltac:(lia)) as Hdm.
  pose proof (Z.mod_pos_bound (file_size * 100) 1024 ltac:(lia)) as Hb.
  set (q := (file_size * 100 / 1024)%Z) in *.
  set (r := ((file_size * 100) mod 1024)%Z) in *.
  destruct (Z.ltb_spec r 512); [split; lia|].
  destruct (Z.ltb_spec 512 r); [split; lia|].
  destruct (Z.even q); split; lia.
Qed.

Lemma shown_size_is_nearest_hundredth_witness :
  (Z.abs (1024 * size_kb_hundredths 20000 - 100 * 20000) <= 512)%Z /\
  render_size_kb 20000 = "19.53".
Proof.
  split; [|reflexivity].
  assert (Hpos : (0 <= 20000)%Z) by lia.
  exact (proj1 (shown_size_is_nearest_hundredth 20000 Hpos)).
Defined.

(** *** What each analysis returns *)

Lemma path_failure_incl fs paths paths' e :
  (forall p, In p paths -> In p paths') ->
  path_failure fs paths e -> path_failure fs paths' e.
Proof. intros Hincl (p & Hin & H). exists p. split; [apply Hincl, Hin | exact H]. Qed.

Lemma path_exists_raise fs p e :
  path_exists fs p = Raise e -> path_failure fs [str p] e.
Proof.
  unfold path_exists. destruct (fs_exists fs (str p)) eqn:Hex; [discriminate|].
  destruct (fs_stat_refused fs (str p)) eqn:Hst; [|discriminate].
  intros [= <-]. exists (str p). split; [left; reflexivity|]. left. auto.
Qed.

Lemma path_exists_true fs p :
  path_exists fs p = Ok true -> fs_exists fs (str p) = true.
Proof.
  unfold path_exists. destruct (fs_exists fs (str p)); [reflexivity|].
  destruct (fs_stat_refused fs (str p)); discriminate.
Qed.

Lemma path_read_raise fs p e :
  path_read fs p = Raise e -> path_exists fs p = Ok true ->
  path_failure fs [str p] e.
Proof.
  unfold path_read, open_read. intros Hrd Hex%path_exists_true.
  destruct (fs_read fs (str p)) as [content|] eqn:Hr; [discriminate|].
  exists (str p). split; [left; reflexivity|]. right.
  destruct (fs_read_failure fs (str p)); injection Hrd as <-; auto.
Qed.

Ltac phase2_cases :=
  cbv [phase2_outcome];
  repeat (cbn [bind];
          match goal with
          | |- context [path_exists ?fs ?p] =>
              destruct (path_exists fs p) as [[|]|?] eqn:?
          | |- context [path_read ?fs ?p] => destruct (path_read fs p) eqn:?
          | |- context [if ?b then _ else _] => destruct b
          end);
  cbn [bind app].

Ltac path_failure_done :=
  eapply path_failure_incl;
  [|first [ eapply path_exists_raise; eassumption
          | eapply path_read_raise; eassumption ]];
  cbn [In]; intros ? ?; tauto.

Ltac phase2_outcome_done :=
  first [ split; [repeat constructor | simpl; lia]
        | path_failure_done ].

Lemma analyze_dashboard_metrics_error_outcome self fs :
  phase2_outcome fs [str (truediv (repo_path self) "server/routes.ts")]
    ["HIGH"] 1 (analyze_dashboard_metrics_error self fs).
Proof. unfold analyze_dashboard_metrics_error. phase2_cases; phase2_outcome_done. Qed.

Lemma analyze_performance_monitoring_gaps_outcome self fs :
  phase2_outcome fs
    [str (truediv (repo_path self) "server/index.ts");
     str (truediv (repo_path self) "client/src/main.tsx")]
    ["LOW"] 2 (analyze_performance_monitoring_gaps self fs).
Proof. unfold analyze_performance_monitoring_gaps. phase2_cases; phase2_outcome_done. Qed.

Lemma analyze_api_response_optimization_outcome self fs :
  phase2_outcome fs [str (truediv (repo_path self) "server/routes.ts")]
    ["MEDIUM"; "LOW"] 2 (analyze_api_response_optimization self fs).
Proof. unfold analyze_api_response_optimization. phase2_cases; phase2_outcome_done. Qed.

Lemma analyze_bundle_size_optimization_outcome self fs :
  phase2_outcome fs [str (truediv (repo_path self) "client/src/App.tsx")]
    ["MEDIUM"] 2 (analyze_bundle_size_optimization self fs).
Proof.
  unfold analyze_bundle_size_optimization. cbv zeta.
  destruct (find_large_components self fs) as [|c lcs];
    cbn [report_large_components app]; phase2_cases; phase2_outcome_done.
Qed.

Lemma image_loop_raise self fs components acc e :
  image_loop self fs components acc = Raise e ->
  path_failure fs
    (map (fun name => str (truediv (repo_path self) name)) components) e.
Proof.
  revert acc. induction components as [|c components IH]; intros acc; simpl;
    [discriminate|].
  destruct (path_exists fs _) as [[|]|e'] eqn:Hex; cbn [bind].
  - destruct (path_read fs _) as [content|e'] eqn:Hrd; cbn [bind].
    + intros H%IH. eapply path_failure_incl; [|exact H]. intros p Hp. right. exact Hp.
    + intros [= <-]. eapply path_failure_incl; [|eapply path_read_raise; eassumption].
      intros p [<-|[]]. left. reflexivity.
  - intros H%IH. eapply path_failure_incl; [|exact H]. intros p Hp. right. exact Hp.
  - intros [= <-]. eapply path_failure_incl; [|eapply path_exists_raise; eassumption].
    intros p [<-|[]]. left. reflexivity.
Qed.

Lemma analyze_image_lazy_loading_opportunities_outcome self fs :
  phase2_outcome fs
    (map (fun name => str (truediv (repo_path self) name)) image_components)
    ["MEDIUM"] 3 (analyze_image_lazy_loading_opportunities self fs).
Proof.
  unfold phase2_outcome, analyze_image_lazy_loading_opportunities.
  destruct (image_loop self fs image_components []) as [l|e] eqn:H.
  - apply image_loop_inv in H as (pc & -> & Hpc). cbn [app]. split.
    + clear -Hpc. induction Hpc as [|c n cs ns Hn _ IH]; simpl; [constructor|].
      apply Forall_app. split; [|exact IH].
      destruct Hn as [-> | [-> | ->]]; repeat constructor.
    + apply (image_findings_length _ _ Hpc).
  - eapply image_loop_raise, H.
Qed.

Lemma error_handling_loop_outcome self fs components acc :
  match error_handling_loop self fs components acc with
  | Ok l =>
      exists new,
        l = acc ++ new /\ (length new <= length components)%nat /\
        Forall (fun x => emitted x && severity_in ["MEDIUM"] x = true) new
  | Raise e =>
      path_failure fs
        (map (fun name => str (truediv (repo_path self) name)) components) e
  end.
Proof.
  revert acc. induction components as [|c components IH]; intros acc; simpl.
  - exists []. rewrite app_nil_r. repeat split; [simpl; lia | constructor].
  - assert (Hlater : forall acc',
      match error_handling_loop self fs components acc' with
      | Ok l =>
          exists new,
            l = acc' ++ new /\ (length new <= length components)%nat /\
            Forall (fun x => emitted x && severity_in ["MEDIUM"] x = true) new
      | Raise e =>
          path_failure fs
            (str (truediv (repo_path self) c)
             :: map (fun name => str (truediv (repo_path self) name)) components) e
      end).
    { intros acc'. specialize (IH acc').
      destruct (error_handling_loop _ _ _ _) as [l|e]; [exact IH|].
      eapply path_failure_incl; [|exact IH]. intros p Hp. right. exact Hp. }
    destruct (path_exists fs _) as [[|]|e'] eqn:Hex; cbn [bind].
    + destruct (path_read fs _) as [content|e'] eqn:Hrd; cbn [bind].
      * destruct (_ && _).
        -- specialize (Hlater (acc ++ [error_handling_issue c])).
           destruct (error_handling_loop _ _ _ _) as [l|e]; [|exact Hlater].
           destruct Hlater as (new & -> & Hlen & Hall).
           exists (error_handling_issue c :: new).
           split; [rewrite <- app_assoc; reflexivity|]. split; [simpl; lia|].
           constructor; [reflexivity | exact Hall].
        -- specialize (Hlater acc).
           destruct (error_handling_loop _ _ _ _) as [l|e]; [|exact Hlater].
           destruct Hlater as (new & -> & Hlen & Hall). exists new.
           split; [reflexivity|]. split; [lia | exact Hall].
      * eapply path_failure_incl; [|eapply path_read_raise; eassumption].
        intros p [<-|[]]. left. reflexivity.
    + specialize (Hlater acc).
      destruct (error_handling_loop _ _ _ _) as [l|e]; [|exact Hlater].
      destruct Hlater as (new & -> & Hlen & Hall). exists new.
      split; [reflexivity|]. split; [lia | exact Hall].
    + eapply path_failure_incl; [|eapply path_exists_raise; eassumption].
      intros p [<-|[]]. left. reflexivity.
Qed.

Lemma analyze_error_handling_gaps_outcome self fs :
  phase2_outcome fs
    (map (fun name => str (truediv (repo_path self) name)) critical_components)
    ["MEDIUM"] 3 (analyze_error_handling_gaps self fs).
Proof.
  unfold phase2_outcome, analyze_error_handling_gaps.
  pose proof (error_handling_loop_outcome self fs critical_components []) as H.
  destruct (error_handling_loop _ _ _ _) as [l|e]; [|exact H].
  destruct H as (new & -> & Hlen & Hall). cbn [app]. split; [exact Hall | exact Hlen].
Qed.

Lemma path_failure_named self fs names e :
  forallb (fun name => existsb (String.eqb name) named_files) names = true ->
  path_failure fs (map (fun name => str (truediv (repo_path self) name)) names) e ->
  path_failure fs (named_paths self) e.
Proof.
  intros Hnames. apply path_failure_incl. intros p (name & <- & Hin)%in_map_iff.
  rewrite forallb_forall in Hnames. specialize (Hnames name Hin).
  apply existsb_exists in Hnames as (name' & Hin' & ->%String.eqb_eq).
  unfold named_paths. apply in_map_iff. exists name'. split; [reflexivity | exact Hin'].
Qed.

Ltac named names H :=
  apply (path_failure_named _ _ names); [reflexivity | exact H].

(** The outcomes of the six analyses, as [collect_all_issues] meets them *)
Lemma collect_all_issues_cases self fs :
  match collect_all_issues self fs with
  | Raise e => path_failure fs (named_paths self) e
  | Ok all_issues =>
      exists l1 l2 l3 l4 l5 l6,
        all_issues = l1 ++ l2 ++ l3 ++ l4 ++ l5 ++ l6 /\
        analyze_dashboard_metrics_error self fs = Ok l1 /\
        analyze_image_lazy_loading_opportunities self fs = Ok l2 /\
        analyze_bundle_size_optimization self fs = Ok l3 /\
        analyze_error_handling_gaps self fs = Ok l4 /\
        analyze_performance_monitoring_gaps self fs = Ok l5 /\
        analyze_api_response_optimization self fs = Ok l6
  end.
Proof.
  pose proof (analyze_dashboard_metrics_error_outcome self fs) as O1.
  pose proof (analyze_image_lazy_loading_opportunities_outcome self fs) as O2.
  pose proof (analyze_bundle_size_optimization_outcome self fs) as O3.
  pose proof (analyze_error_handling_gaps_outcome self fs) as O4.
  pose proof (analyze_performance_monitoring_gaps_outcome self fs) as O5.
  pose proof (analyze_api_response_optimization_outcome self fs) as O6.
  unfold collect_all_issues. cbv zeta.
  destruct (analyze_dashboard_metrics_error self fs) as [l1|]; [|named (["server/routes.ts"]) O1].
  destruct (analyze_image_lazy_loading_opportunities self fs) as [l2|]; [|named (image_components) O2].
  destruct (analyze_bundle_size_optimization self fs) as [l3|]; [|named (["client/src/App.tsx"]) O3].
  destruct (analyze_error_handling_gaps self fs) as [l4|]; [|named (critical_components) O4].
  destruct (analyze_performance_monitoring_gaps self fs) as [l5|]; [|named (["server/index.ts"; "client/src/main.tsx"]) O5].
  destruct (analyze_api_response_optimization self fs) as [l6|]; [|named (["server/routes.ts"]) O6].
  cbn [bind]. exists l1, l2, l3, l4, l5, l6. rewrite <- !app_assoc. auto 10.
Qed.



(** *** The sizes of the buckets *)

Lemma severity_in_levels levels (x : Issue) sev :
  severity_in levels x = true -> x !! "severity" = Some sev -> In sev levels.
Proof.
  unfold severity_in. intros H Hs. rewrite Hs in H.
  apply existsb_exists in H as (s & Hin & ->%String.eqb_eq). exact Hin.
Qed.

Lemma filter_severity_out levels sev (l : list Issue) :
  Forall (fun x => emitted x && severity_in levels x = true) l ->
  ~ In sev levels ->
  filter (fun x : Issue => x !! "severity" = Some sev) l = [].
Proof.
  intros H Hno. apply filter_none. eapply Forall_impl; [exact H|].
  intros x [_ Hx]%andb_prop Hs. apply Hno. eapply severity_in_levels; eauto.
Qed.

Lemma Forall_filter_keep {A} (P : A -> Prop) (Q : A -> Prop)
    `{forall x, Decision (Q x)} (l : list A) :
  Forall P l -> Forall P (filter Q l).
Proof.
  induction 1 as [|x l Hx _ IH]; [constructor|].
  rewrite filter_cons. destruct (decide (Q x)); [constructor|]; assumption.
Qed.

Lemma dashboard_finding_name self fs l :
  analyze_dashboard_metrics_error self fs = Ok l ->
  Forall (fun x : Issue =>
            x !! "issue"
            = Some "Dashboard metrics database error - Date object serialization") l.
Proof.
  unfold analyze_dashboard_metrics_error. phase2_cases;
    first [discriminate | intros [= <-]; repeat constructor].
Qed.

Lemma api_findings_by_severity self fs l :
  analyze_api_response_optimization self fs = Ok l ->
  (length (filter (fun x : Issue => x !! "severity" = Some "MEDIUM") l) <= 1)%nat /\
  (length (filter (fun x : Issue => x !! "severity" = Some "LOW") l) <= 1)%nat.
Proof.
  unfold analyze_api_response_optimization. phase2_cases;
    first [discriminate | intros [= <-]; split; apply Nat.leb_le; reflexivity].
Qed.

Lemma length_filter_le_phase2 sev (l : list Issue) :
  (length (filter (fun x : Issue => x !! "severity" = Some sev) l) <= length l)%nat.
Proof.
  induction l as [|x l IH]; [reflexivity|].
  rewrite filter_cons. destruct (decide (x !! "severity" = Some sev)); simpl; lia.
Qed.

(** X17: the HIGH bucket holds at most one finding, which can only be the
    dashboard metrics error; the MEDIUM bucket holds at most nine
    findings, the LOW bucket at most three, and there are at most
    thirteen findings in all. *)
Theorem bucket_sizes_are_bounded self fs imp :
  generate_phase2_improvements self fs = Ok imp ->
  (length (high_priority imp) <= 1)%nat /\
  Forall (fun x : Issue =>
            x !! "issue"
            = Some "Dashboard metrics database error - Date object serialization")
         (high_priority imp) /\
  (length (medium_priority imp) <= 9)%nat /\
  (length (low_priority imp) <= 3)%nat /\
  (total_issues imp <= 13)%nat.
Proof.
  unfold generate_phase2_improvements.
  pose proof (collect_all_issues_cases self fs) as Hc.
  destruct (collect_all_issues self fs) as [all_issues|e]; [|discriminate]. cbn [bind].
  destruct Hc as (l1 & l2 & l3 & l4 & l5 & l6 & -> & H1 & H2 & H3 & H4 & H5 & H6).
  intros (Hh & Hm & Hl & Ht)%categorize_inv.
  pose proof (analyze_dashboard_metrics_error_outcome self fs) as O1.
  pose proof (analyze_image_lazy_loading_opportunities_outcome self fs) as O2.
  pose proof (analyze_bundle_size_optimization_outcome self fs) as O3.
  pose proof (analyze_error_handling_gaps_outcome self fs) as O4.
  pose proof (analyze_performance_monitoring_gaps_outcome self fs) as O5.
  pose proof (analyze_api_response_optimization_outcome self fs) as O6.
  rewrite H1 in O1. rewrite H2 in O2. rewrite H3 in O3. rewrite H4 in O4.
  rewrite H5 in O5. rewrite H6 in O6.
  destruct O1 as [S1 N1], O2 as [S2 N2], O3 as [S3 N3], O4 as [S4 N4],
    O5 as [S5 N5], O6 as [S6 N6].
  destruct (api_findings_by_severity _ _ _ H6) as [M6 L6].
  rewrite Hh, Hm, Hl, Ht. rewrite !filter_app, !length_app.
  rewrite (filter_severity_out _ "HIGH" l2 S2), (filter_severity_out _ "HIGH" l3 S3),
    (filter_severity_out _ "HIGH" l4 S4), (filter_severity_out _ "HIGH" l5 S5),
    (filter_severity_out _ "HIGH" l6 S6),
    (filter_severity_out _ "MEDIUM" l1 S1), (filter_severity_out _ "MEDIUM" l5 S5),
    (filter_severity_out _ "LOW" l1 S1), (filter_severity_out _ "LOW" l2 S2),
    (filter_severity_out _ "LOW" l3 S3), (filter_severity_out _ "LOW" l4 S4)
    by (simpl; intuition discriminate).
  rewrite !app_nil_r. cbn [length].
  pose proof (length_filter_le_phase2 "HIGH" l1).
  pose proof (length_filter_le_phase2 "MEDIUM" l2).
  pose proof (length_filter_le_phase2 "MEDIUM" l3).
  pose proof (length_filter_le_phase2 "MEDIUM" l4).
  pose proof (length_filter_le_phase2 "LOW" l5).
  repeat split; try lia.
  apply Forall_filter_keep. eapply dashboard_finding_name, H1.
Qed.

Lemma bucket_sizes_are_bounded_witness :
  exists imp,
    generate_phase2_improvements (__init__ ".") fs_images = Ok imp /\
    total_issues imp = 2%nat /\
    (length (medium_priority imp) <= 9)%nat.
Proof.
  eexists. split; [reflexivity|]. split; [reflexivity|].
  apply (bucket_sizes_are_bounded (__init__ ".") fs_images). reflexivity.
Defined.

(** *** A tree without any of the named files *)






End Phase2More.
